(** * Meme generator: a shallow embedding of [meme_generator.py]

    The program is one PyQt window class, [MyForm], whose methods are the
    slots of the buttons, sliders and text fields.  The embedding keeps the
    shape of the source:

    - Python [str] is a list of Unicode code points;
    - the attributes of [self] (and of [self.ui]) are the fields of a record;
    - PIL images are objects in a store, so that [copy], the in-place
      [draw.text] and [thumbnail] and the sharing of references are explicit;
    - every method is a computation in a state-and-exception monad over the
      store, the random generator and the list of effects it performed
      (message boxes, files written, calls of the X client);
    - Pillow, the random generator and the operating system are interfaces:
      the program is verified against any implementation of them;
    - a call that may raise gives an [outcome]: loading the font, listing
      the folder, decoding a picture, making the output folder, writing a
      file, reading the captions, the calls of the X client.

    An exception that leaves a slot ends the session: the runs and the
    reachable machines below go through slots that returned.  An exception
    of [update_canvas] run by the signal [textChanged] is taken to reach
    the caller of [setText].  Calls of [logging] are not modelled. *)

From Stdlib Require Import Ascii String.
From stdpp Require Import base tactics option list numbers pretty.

Local Open Scope Z_scope.

(** ** Python strings *)

Module Py.

(** A [str] is its sequence of code points. *)
Definition str : Type := list N.

(** A literal of the source, written as an ASCII string. *)
Definition lit (s : string) : str := N_of_ascii <$> list_ascii_of_string s.

(** [if s:] on a string. *)
Definition truthy (s : str) : bool :=
  match s with [] => false | _ :: _ => true end.

(** [s == t]. *)
Definition eqb (s t : str) : bool := bool_decide (s = t).

(** [str.isspace] on one code point: the characters Python's Unicode
    database classes as whitespace. *)
Definition isspace (c : N) : bool :=
  ((9 <=? c) && (c <=? 13) || (28 <=? c) && (c <=? 32)
   || (c =? 133) || (c =? 160) || (c =? 5760)
   || (8192 <=? c) && (c <=? 8202)
   || (c =? 8232) || (c =? 8233) || (c =? 8239) || (c =? 8287)
   || (c =? 12288))%N.

Fixpoint lstrip (s : str) : str :=
  match s with
  | c :: s' => if isspace c then lstrip s' else s
  | [] => []
  end.

Definition rstrip (s : str) : str := rev (lstrip (rev s)).

(** [s.strip()]. *)
Definition strip (s : str) : str := rstrip (lstrip s).

(** [s.endswith(suffix)]. *)
Definition endswith (s suffix : str) : bool :=
  bool_decide (drop (length s - length suffix) s = suffix).

(** [s.endswith((a, b))]. *)
Definition endswith_any (s : str) (suffixes : list str) : bool :=
  existsb (endswith s) suffixes.

(** [str(n)] on an integer, as in an f-string. *)
Definition of_Z (n : Z) : str := lit (pretty n).

End Py.

Abbreviation str := Py.str.
Abbreviation lit := Py.lit.
Arguments Py.lit s%_string : simpl never.

(** ** Qt strings *)

Module Qt.

(** A [QString] counts in UTF-16 units: a code point over [U+FFFF] takes
    two. *)
Definition units (c : N) : nat := if (c <? 65536)%N then 1%nat else 2%nat.

(** [s.size()]. *)
Fixpoint size (s : str) : nat :=
  match s with
  | c :: s' => (units c + size s')%nat
  | [] => 0%nat
  end.

(** The first unit of a code point that takes two. *)
Definition high_surrogate (c : N) : N := (55296 + (c - 65536) / 1024)%N.

(** The first [n] units of [s]; of a character that takes two units and
    has room for one, the first unit is left. *)
Fixpoint left_units (n : Z) (s : str) : str :=
  match s with
  | c :: s' =>
      if n <=? 0 then []
      else if (c <? 65536)%N then c :: left_units (n - 1) s'
      else if n =? 1 then [high_surrogate c]
      else c :: left_units (n - 2) s'
  | [] => []
  end.

(** [s.left(n)]: the whole string when [n] is negative or not below the
    size. *)
Definition left (n : Z) (s : str) : str :=
  if n <? 0 then s else left_units n s.

(** What [QLineEdit.setText(s)] puts in a field of the given
    [maxLength]: [s.left(maxLength)]. *)
Definition kept (maxLength : Z) (s : str) : str := left maxLength s.

(** [s] is within [maxLength]. *)
Definition fits (maxLength : Z) (s : str) : bool :=
  (maxLength <? 0) || (Z.of_nat (size s) <=? maxLength).

End Qt.

(** ** Exceptions *)

(** The exception classes the program meets.  [OtherException] stands for
    any class that derives from [Exception] only (a [csv.Error], an error of
    the X client, ...). *)
Inductive exn_class :=
  | FileNotFoundError | OSError | ValueError | UnicodeDecodeError
  | AttributeError | IndexError | OtherException.

(** An exception: its class and [str(e)]. *)
Record exn := Exn { exn_cls : exn_class; exn_str : str }.

(** [isinstance(e, FileNotFoundError)]. *)
Definition is_FileNotFoundError (e : exn) : bool :=
  match exn_cls e with FileNotFoundError => true | _ => false end.

(** [isinstance(e, ValueError)]: [UnicodeDecodeError] derives from it. *)
Definition is_ValueError (e : exn) : bool :=
  match exn_cls e with ValueError | UnicodeDecodeError => true | _ => false end.

(** What a call gives back: a value, or a raised exception. *)
Inductive outcome (A : Type) :=
  | Ok (a : A)
  | Raise (e : exn).
Arguments Ok {A} a.
Arguments Raise {A} e.

(** ** The libraries the program calls *)

(** Pillow.  An [Image] is the pixel data of an image object, a [Font] a
    loaded font.  Drawing is given as the function from the pixels before
    to the pixels after; the one law used is that drawing text leaves the
    size of the image alone.  Loading the font file may raise (a size
    that is not positive, a file that is no font); what it gives for a
    path and a size stays the same during a session.  Drawing is taken to
    return.  Decoding a picture belongs to [World] below. *)
Class Pillow := {
  Image : Type;
  Font : Type;
  (** [img.size], as [(width, height)]. *)
  Image_size : Image → Z * Z;
  (** [ImageFont.truetype(path, size)]. *)
  ImageFont_truetype : str → Z → outcome Font;
  (** [ImageFont.load_default()]. *)
  ImageFont_load_default : Font;
  (** [draw.text(xy, text, fill="white", font=font, stroke_width=2,
      stroke_fill="black")] on the image [draw] was made for. *)
  ImageDraw_text : Z * Z → str → Font → Image → Image;
  (** [draw.textbbox(xy, text, font=font)], as [(left, top, right, bottom)]. *)
  ImageDraw_textbbox : Z * Z → str → Font → Z * Z * Z * Z;
  (** [img.resize(size, Image.Resampling.LANCZOS)]. *)
  Image_resize : Z * Z → Image → Image;
  (** [img.thumbnail(size, Image.Resampling.LANCZOS)], in place. *)
  Image_thumbnail : Z * Z → Image → Image;
  ImageDraw_text_size xy text font img :
    Image_size (ImageDraw_text xy text font img) = Image_size img
}.

(** [img.height]. *)
Definition Image_height `{Pillow} (img : Image) : Z := (Image_size img).2.

(** The generator behind the module [random]: [randbelow n] draws an index
    below [n] and steps the generator. *)
Class Random := {
  RNG : Type;
  randbelow : nat → RNG → nat * RNG;
  randbelow_lt n g : (0 < n)%nat → ((randbelow n g).1 < n)%nat
}.

(** What the program reads from its surroundings during one call: the file
    system, the image decoder, the process environment and the X client. *)
Record World `{Pillow} := {
  (** [resource_path(relative_path)]. *)
  resource_path : str → str;
  os_path_exists : str → bool;
  os_path_join : str → str → str;
  os_listdir : str → outcome (list str);
  (** [os.makedirs(path, exist_ok=True)]. *)
  os_makedirs : str → outcome unit;
  (** [img.save(path)] in [save_image]. *)
  Image_save : str → Image → outcome unit;
  (** [Image.open(path).convert("RGBA")]. *)
  Image_open : str → outcome Image;
  (** [open(path, encoding="utf-8")] read through [csv.reader]: the rows, a
      blank line giving the empty row. *)
  csv_rows : str → outcome (list (list str));
  (** [tweepy is not None]. *)
  tweepy_imported : bool;
  os_getenv : str → option str;
  (** Building [tweepy.Client]. *)
  tweepy_Client : outcome unit;
  (** Building [tweepy.OAuth1UserHandler] and [tweepy.API]. *)
  tweepy_API : outcome unit;
  (** [twitter_api.media_upload(filename, file)], giving
      [media.media_id_string]. *)
  media_upload : str → Image → outcome str;
  (** [twitter_client.create_tweet(text, media_ids)]. *)
  create_tweet : str → list str → outcome unit
}.

(** ** The state of the program *)

(** What the program did to its surroundings, in order. *)
Inductive effect `{Pillow} :=
  | MessageBox (title text : str)
  | MakeDirs (path : str)
  | ImageSaved (path : str) (img : Image)
  | FileRemoved (path : str)
  | MediaUploaded (filename : str) (img : Image)
  | TweetCreated (text : str) (media_ids : list str).

(** A reference to an image object. *)
Definition ref : Type := nat.

(** The widgets of [self.ui] the methods read or write. *)
Record Ui `{Pillow} := {
  topTextEdit : str;
  bottomTextEdit : str;
  (** [maxLength()] of the two fields, as the description file sets it. *)
  topTextEdit_maxLength : Z;
  bottomTextEdit_maxLength : Z;
  (** The pixmap shown, [None] after [clear()]. *)
  imageCanvas : option Image;
  (** [imageCanvas.size()]. *)
  imageCanvas_size : Z * Z;
  shareButton_enabled : bool
}.

(** The attributes of [self]. *)
Record MyForm `{Pillow} := {
  ui : Ui;
  image_folder : str;
  image : option ref;
  original_image : option ref;
  current_font_size : Z;
  current_padding : Z;
  current_top_left_margin : Z;
  current_bottom_padding : Z;
  font_path : option str;
  captions : list str;
  (** Set by [random_gacha] only. *)
  image_files : list str;
  (** Whether [twitter_client] and [twitter_api] hold an object. *)
  twitter_client : bool;
  twitter_api : bool
}.

(** The whole machine: the window, the image objects, the generator of
    [random] and the effects so far. *)
Record Sys `{Pillow} `{Random} := {
  self : MyForm;
  store : list Image;
  rng : RNG;
  effects : list effect
}.

Section Program.
Context `{Pillow} `{Random}.

(** *** Assignments to attributes *)

Definition ui_with_top (t : str) (u : Ui) : Ui :=
  {| topTextEdit := t; bottomTextEdit := bottomTextEdit u;
     topTextEdit_maxLength := topTextEdit_maxLength u;
     bottomTextEdit_maxLength := bottomTextEdit_maxLength u;
     imageCanvas := imageCanvas u; imageCanvas_size := imageCanvas_size u;
     shareButton_enabled := shareButton_enabled u |}.

Definition ui_with_bottom (t : str) (u : Ui) : Ui :=
  {| topTextEdit := topTextEdit u; bottomTextEdit := t;
     topTextEdit_maxLength := topTextEdit_maxLength u;
     bottomTextEdit_maxLength := bottomTextEdit_maxLength u;
     imageCanvas := imageCanvas u; imageCanvas_size := imageCanvas_size u;
     shareButton_enabled := shareButton_enabled u |}.

Definition ui_with_canvas (p : option Image) (u : Ui) : Ui :=
  {| topTextEdit := topTextEdit u; bottomTextEdit := bottomTextEdit u;
     topTextEdit_maxLength := topTextEdit_maxLength u;
     bottomTextEdit_maxLength := bottomTextEdit_maxLength u;
     imageCanvas := p; imageCanvas_size := imageCanvas_size u;
     shareButton_enabled := shareButton_enabled u |}.

Definition ui_with_shareButton (b : bool) (u : Ui) : Ui :=
  {| topTextEdit := topTextEdit u; bottomTextEdit := bottomTextEdit u;
     topTextEdit_maxLength := topTextEdit_maxLength u;
     bottomTextEdit_maxLength := bottomTextEdit_maxLength u;
     imageCanvas := imageCanvas u; imageCanvas_size := imageCanvas_size u;
     shareButton_enabled := b |}.

(** The attributes in the order of the record, one function to rebuild a
    window from all of them. *)
Definition rebuild (f : MyForm) u fo im om fs pa ma bp fp ca fi tc ta : MyForm :=
  {| ui := u f; image_folder := fo f; image := im f; original_image := om f;
     current_font_size := fs f; current_padding := pa f;
     current_top_left_margin := ma f; current_bottom_padding := bp f;
     font_path := fp f; captions := ca f; image_files := fi f;
     twitter_client := tc f; twitter_api := ta f |}.

Definition with_ui (g : Ui → Ui) (f : MyForm) : MyForm :=
  rebuild f (g ∘ ui) image_folder image original_image current_font_size
    current_padding current_top_left_margin current_bottom_padding font_path
    captions image_files twitter_client twitter_api.

Definition with_image_folder (v : str) (f : MyForm) : MyForm :=
  rebuild f ui (λ _, v) image original_image current_font_size
    current_padding current_top_left_margin current_bottom_padding font_path
    captions image_files twitter_client twitter_api.

Definition with_image (v : option ref) (f : MyForm) : MyForm :=
  rebuild f ui image_folder (λ _, v) original_image current_font_size
    current_padding current_top_left_margin current_bottom_padding font_path
    captions image_files twitter_client twitter_api.

Definition with_original_image (v : option ref) (f : MyForm) : MyForm :=
  rebuild f ui image_folder image (λ _, v) current_font_size
    current_padding current_top_left_margin current_bottom_padding font_path
    captions image_files twitter_client twitter_api.

Definition with_font_size (v : Z) (f : MyForm) : MyForm :=
  rebuild f ui image_folder image original_image (λ _, v)
    current_padding current_top_left_margin current_bottom_padding font_path
    captions image_files twitter_client twitter_api.

Definition with_padding (v : Z) (f : MyForm) : MyForm :=
  rebuild f ui image_folder image original_image current_font_size
    (λ _, v) current_top_left_margin current_bottom_padding font_path
    captions image_files twitter_client twitter_api.

Definition with_top_left_margin (v : Z) (f : MyForm) : MyForm :=
  rebuild f ui image_folder image original_image current_font_size
    current_padding (λ _, v) current_bottom_padding font_path
    captions image_files twitter_client twitter_api.

Definition with_bottom_padding (v : Z) (f : MyForm) : MyForm :=
  rebuild f ui image_folder image original_image current_font_size
    current_padding current_top_left_margin (λ _, v) font_path
    captions image_files twitter_client twitter_api.

Definition with_font_path (v : option str) (f : MyForm) : MyForm :=
  rebuild f ui image_folder image original_image current_font_size
    current_padding current_top_left_margin current_bottom_padding (λ _, v)
    captions image_files twitter_client twitter_api.

Definition with_captions (v : list str) (f : MyForm) : MyForm :=
  rebuild f ui image_folder image original_image current_font_size
    current_padding current_top_left_margin current_bottom_padding font_path
    (λ _, v) image_files twitter_client twitter_api.

Definition with_image_files (v : list str) (f : MyForm) : MyForm :=
  rebuild f ui image_folder image original_image current_font_size
    current_padding current_top_left_margin current_bottom_padding font_path
    captions (λ _, v) twitter_client twitter_api.

Definition with_twitter (c a : bool) (f : MyForm) : MyForm :=
  rebuild f ui image_folder image original_image current_font_size
    current_padding current_top_left_margin current_bottom_padding font_path
    captions image_files (λ _, c) (λ _, a).

Definition with_self (g : MyForm → MyForm) (s : Sys) : Sys :=
  {| self := g (self s); store := store s; rng := rng s;
     effects := effects s |}.

Definition with_store (g : list Image → list Image) (s : Sys) : Sys :=
  {| self := self s; store := g (store s); rng := rng s;
     effects := effects s |}.

Definition with_rng (g : RNG) (s : Sys) : Sys :=
  {| self := self s; store := store s; rng := g; effects := effects s |}.

Definition with_effect (e : effect) (s : Sys) : Sys :=
  {| self := self s; store := store s; rng := rng s;
     effects := effects s ++ [e] |}.

(** *** The monad of the methods

    A method runs from a machine to a machine and either returns or
    raises; what it did before raising stays done. *)
Definition M (A : Type) : Type := Sys → outcome A * Sys.

#[global] Instance M_ret : MRet M := λ A a s, (Ok a, s).

#[global] Instance M_bind : MBind M := λ A B k m s,
  match m s with
  | (Ok a, s') => k a s'
  | (Raise e, s') => (Raise e, s')
  end.

Definition raise {A} (e : exn) : M A := λ s, (Raise e, s).

(** [try: body except <classes caught>: handler]. *)
Definition try_except {A} (body : M A) (caught : exn → bool)
    (handler : exn → M A) : M A := λ s,
  match body s with
  | (Ok a, s') => (Ok a, s')
  | (Raise e, s') => if caught e then handler e s' else (Raise e, s')
  end.

(** [except Exception] catches every class here. *)
Definition is_Exception (e : exn) : bool := true.

Definition get : M MyForm := λ s, (Ok (self s), s).
Definition modify (g : MyForm → MyForm) : M unit := λ s, (Ok (), with_self g s).
Definition emit (e : effect) : M unit := λ s, (Ok (), with_effect e s).

(** A call of a library function that may raise. *)
Definition call {A} (r : outcome A) : M A := λ s, (r, s).

(** *** Image objects *)

(** A new image object. *)
Definition new_image (img : Image) : M ref := λ s,
  (Ok (length (store s)), with_store (λ h, h ++ [img]) s).

(** The pixels of an object. *)
Definition pixels (r : ref) : M Image := λ s,
  match store s !! r with
  | Some img => (Ok img, s)
  | None => (Raise (Exn OtherException (lit "no such object")), s)
  end.

(** An in-place operation on an object. *)
Definition mutate (r : ref) (g : Image → Image) : M unit := λ s,
  match store s !! r with
  | Some img => (Ok (), with_store (λ h, <[r := g img]> h) s)
  | None => (Raise (Exn OtherException (lit "no such object")), s)
  end.

(** [x.copy()] where [x] is an attribute that may be [None]. *)
Definition Image_copy (x : option ref) : M ref :=
  match x with
  | Some r => img ← pixels r; new_image img
  | None =>
      raise (Exn AttributeError
               (lit "'NoneType' object has no attribute 'copy'"))
  end.

(** *** The module [random] *)

(** [random.choice(seq)]. *)
Definition random_choice {A} (seq : list A) : M A := λ s,
  match seq with
  | [] => (Raise (Exn IndexError (lit "Cannot choose from an empty sequence")), s)
  | _ :: _ =>
      let '(i, g) := randbelow (length seq) (rng s) in
      match seq !! i with
      | Some x => (Ok x, with_rng g s)
      | None => (Raise (Exn IndexError (lit "list index out of range")), with_rng g s)
      end
  end.

(** [random.randint(a, b)]. *)
Definition random_randint (a b : Z) : M Z := λ s,
  let '(i, g) := randbelow (Z.to_nat (b - a + 1)) (rng s) in
  (Ok (a + Z.of_nat i), with_rng g s).

(** *** Message boxes *)

(** [msg = Qw.QMessageBox(self); msg.setWindowTitle(title);
    msg.setText(text); msg.setStyleSheet(...); msg.exec_()]. *)
Definition message_box (title text : str) : M unit :=
  emit (MessageBox title text).

(** ** The methods of [MyForm] *)

Section Methods.
Context (w : World).

(** The list both [return] statements of [load_captions] spell out. *)
Definition default_captions : list str :=
  [ lit "LOL SO TRUE!"; lit "EPIC FAIL!"; lit "TOO FUNNY!"; lit "MEME LORD!";
    lit "VIRAL VIBES!"; lit "SAVAGE MODE!"; lit "YOLO SWAG!"; lit "BIG MOOD!";
    lit "NO CHILL!"; lit "LMAO FOREVER!"; lit "SPICY MEME!";
    lit "BESTIE ENERGY!"; lit "ROASTED!"; lit "ICONIC AF!"; lit "SLAY QUEEN!" ].

(** [[row[0] for row in reader if row]]. *)
Definition first_columns (rows : list (list str)) : list str :=
  omap head rows.

Definition load_captions : M (list str) :=
  let captions_path := resource_path w (lit "captions.csv") in
  if negb (os_path_exists w captions_path) then
    message_box (lit "Warning")
      (lit "Captions file not found: " ++ captions_path
         ++ lit ". Using default captions.");;
    mret default_captions
  else
    try_except
      (rows ← call (csv_rows w captions_path);
       let captions := first_columns rows in
       match captions with
       | [] => raise (Exn ValueError (lit "captions.csv is empty"))
       | _ :: _ => mret captions
       end)
      (λ e, is_FileNotFoundError e || is_ValueError e)
      (λ e,
       message_box (lit "Warning")
         (lit "Failed to load captions: " ++ exn_str e
            ++ lit ". Using default captions.");;
       mret default_captions).

(** [ImageFont.truetype(self.font_path, self.current_font_size)
    if self.font_path else ImageFont.load_default()]. *)
Definition canvas_font (f : MyForm) : outcome Font :=
  match font_path f with
  | Some p => ImageFont_truetype p (current_font_size f)
  | None => Ok ImageFont_load_default
  end.

(** Lines 428 to 432: where the bottom text goes, from the height of the
    image, the bounding box of the text and the bottom padding. *)
Definition bottom_y (height : Z) (bbox : Z * Z * Z * Z) (bottom_padding : Z) : Z :=
  let '(_, top, _, bottom) := bbox in
  let text_height := bottom - top in
  let y_position := height - text_height - bottom_padding in
  if y_position <? 0 then Z.max 10 (height - text_height) else y_position.

(** [if not self.image:] holds of [None] only: an image object is true.
    The font is loaded after the copy is made, and before anything is
    drawn or assigned. *)
Definition update_canvas : M unit :=
  f ← get;
  match image f with
  | None => modify (with_ui (ui_with_canvas None))
  | Some _ =>
      temp_image ← Image_copy (original_image f);
      font ← call (canvas_font f);
      let top_text := topTextEdit (ui f) in
      let bottom_text := bottomTextEdit (ui f) in
      (if Py.truthy top_text then
         mutate temp_image
           (ImageDraw_text (current_top_left_margin f, current_padding f)
              top_text font)
       else mret ());;
      (if Py.truthy bottom_text then
         img ← pixels temp_image;
         let bbox := ImageDraw_textbbox (0, 0) bottom_text font in
         let y_position :=
           bottom_y (Image_height img) bbox (current_bottom_padding f) in
         mutate temp_image
           (ImageDraw_text (current_top_left_margin f, y_position)
              bottom_text font)
       else mret ());;
      let canvas_size := imageCanvas_size (ui f) in
      img ← pixels temp_image;
      modify (with_ui (ui_with_canvas (Some (Image_resize canvas_size img))));;
      modify (with_image (Some temp_image))
  end.

(** [topTextEdit.setText(t)], also what typing into the field does: the
    field keeps [t] up to its [maxLength] and emits [textChanged], which
    is connected to [update_canvas], when its text changes. *)
Definition topTextEdit_setText (t : str) : M unit :=
  f ← get;
  let text := Qt.kept (topTextEdit_maxLength (ui f)) t in
  if Py.eqb (topTextEdit (ui f)) text then mret ()
  else modify (with_ui (ui_with_top text));; update_canvas.

Definition bottomTextEdit_setText (t : str) : M unit :=
  f ← get;
  let text := Qt.kept (bottomTextEdit_maxLength (ui f)) t in
  if Py.eqb (bottomTextEdit (ui f)) text then mret ()
  else modify (with_ui (ui_with_bottom text));; update_canvas.

(** The handler both [load_image] and [random_gacha] have. *)
Definition load_failed (e : exn) : M unit :=
  message_box (lit "Error") (lit "Failed to load image: " ++ exn_str e);;
  modify (with_image None);;
  modify (with_original_image None).

(** [file_name] is what the file dialog returned, empty when it was
    cancelled.  The render is inside the [try]. *)
Definition load_image (file_name : str) : M unit :=
  if Py.truthy file_name then
    try_except
      (img ← call (Image_open w file_name);
       r ← new_image img;
       modify (with_image (Some r));;
       f ← get;
       r' ← Image_copy (image f);
       modify (with_original_image (Some r'));;
       update_canvas)
      is_Exception load_failed
  else mret ().

(** [f.endswith((".jpg", ".png"))]. *)
Definition is_image_file (f : str) : bool :=
  Py.endswith_any f [lit ".jpg"; lit ".png"].

(** The folder is listed before the [try]; the two [setText] and the
    render are inside it. *)
Definition random_gacha : M unit :=
  f ← get;
  if negb (os_path_exists w (image_folder f)) then
    message_box (lit "Warning")
      (lit "Images folder not found: " ++ image_folder f)
  else
    names ← call (os_listdir w (image_folder f));
    modify (with_image_files (List.filter is_image_file names));;
    f ← get;
    match image_files f with
    | _ :: _ =>
        name ← random_choice (image_files f);
        let selected_image := os_path_join w (image_folder f) name in
        try_except
          (img ← call (Image_open w selected_image);
           r ← new_image img;
           modify (with_image (Some r));;
           f ← get;
           r' ← Image_copy (image f);
           modify (with_original_image (Some r'));;
           f ← get;
           caption ← random_choice (captions f);
           topTextEdit_setText caption;;
           bottomTextEdit_setText [];;
           update_canvas)
          is_Exception load_failed
    | [] =>
        message_box (lit "Warning") (lit "No images found in images folder!")
    end.

(** No [try] here: what [os.makedirs] or [save] raises leaves the slot. *)
Definition save_image : M unit :=
  f ← get;
  match image f with
  | Some r =>
      let output_folder := lit "output" in
      call (os_makedirs w output_folder);;
      emit (MakeDirs output_folder);;
      n ← random_randint 1 1000;
      let output_path :=
        os_path_join w output_folder
          (lit "meme_" ++ Py.of_Z n ++ lit ".png") in
      img ← pixels r;
      call (Image_save w output_path img);;
      emit (ImageSaved output_path img);;
      message_box (lit "Saved") (lit "Image saved as " ++ output_path)
  | None => message_box (lit "Warning") (lit "No image to save!")
  end.

Definition clear_canvas : M unit :=
  topTextEdit_setText [];;
  bottomTextEdit_setText [];;
  modify (with_image None);;
  modify (with_original_image None);;
  modify (with_ui (ui_with_canvas None)).

Definition default_share_text : str :=
  lit "Check out my meme! #MemeGenerator #MadeByGrok".

(** Lines 371 to 373. *)
Definition share_text (text : str) : str :=
  if negb (Py.truthy (Py.strip text)) then default_share_text else text.

(** [result] is the answer given in the dialog: [true] for Yes.  Writing
    and removing the temporary file are taken to return. *)
Definition share_to_x (result : bool) : M unit :=
  f ← get;
  match image f with
  | None => message_box (lit "Warning") (lit "No image to post!")
  | Some _ =>
      if negb (twitter_client f) || negb (twitter_api f) then
        message_box (lit "Warning") (lit "X API not initialized.")
      else if result then
        try_except
          (temp_image ← Image_copy (image f);
           img ← pixels temp_image;
           (if (1280 <? (Image_size img).1) || (1280 <? (Image_size img).2)
            then mutate temp_image (Image_thumbnail (1280, 1280))
            else mret ());;
           let temp_path := lit "temp_meme.png" in
           img ← pixels temp_image;
           emit (ImageSaved temp_path img);;
           f ← get;
           let text := share_text (topTextEdit (ui f)) in
           media ← call (media_upload w temp_path img);
           emit (MediaUploaded temp_path img);;
           call (create_tweet w text [media]);;
           emit (TweetCreated text [media]);;
           message_box (lit "Success") (lit "Meme posted to X!");;
           emit (FileRemoved temp_path))
          is_Exception
          (λ e, message_box (lit "Error")
                  (lit "Failed to post to X: " ++ exn_str e))
      else mret ()
  end.

Definition update_font_size (value : Z) : M unit :=
  modify (with_font_size value);;
  f ← get;
  if image f is Some _ then update_canvas else mret ().

Definition update_padding (value : Z) : M unit :=
  modify (with_padding value);;
  f ← get;
  if image f is Some _ then update_canvas else mret ().

Definition update_top_left_margin (value : Z) : M unit :=
  modify (with_top_left_margin value);;
  f ← get;
  if image f is Some _ then update_canvas else mret ().

Definition update_bottom_padding (value : Z) : M unit :=
  modify (with_bottom_padding value);;
  f ← get;
  if image f is Some _ then update_canvas else mret ().

Definition show_splash_message : M unit :=
  message_box (lit "Welcome!")
    (lit "Grok's Meme Generator!" ++ [10%N]
       ++ lit "Create and share epic memes on X!").

(** An entry of [all([...])] over the four keys: set and not empty. *)
Definition key_set (name : str) : bool :=
  match os_getenv w name with
  | Some v => Py.truthy v
  | None => false
  end.

(** [__init__], from the assignment of [self.image_folder] on: the
    window is taken as built from its description file, and the
    connections of signals to slots are what [handle] below follows. *)
Definition init : M unit :=
  modify (with_image_folder (resource_path w (lit "images")));;
  modify (with_image None);;
  modify (with_original_image None);;
  modify (with_font_size 75);;
  modify (with_padding 20);;
  modify (with_top_left_margin 10);;
  modify (with_bottom_padding 20);;
  let path := resource_path w (lit "impact.ttf") in
  modify (with_font_path (Some path));;
  (if negb (os_path_exists w path) then
     message_box (lit "Warning")
       (lit "Font file not found: " ++ path ++ lit ". Using default font.");;
     modify (with_font_path None)
   else mret ());;
  captions ← load_captions;
  modify (with_captions captions);;
  modify (with_twitter false false);;
  if tweepy_imported w
     && forallb key_set
          [lit "X_API_KEY"; lit "X_API_SECRET"; lit "X_ACCESS_TOKEN";
           lit "X_ACCESS_TOKEN_SECRET"]
  then
    try_except
      (call (tweepy_Client w);;
       modify (with_twitter true false);;
       call (tweepy_API w);;
       modify (with_twitter true true);;
       modify (with_ui (ui_with_shareButton true)))
      is_Exception
      (λ e,
       message_box (lit "Warning")
         (lit "Failed to initialize X API: " ++ exn_str e);;
       modify (with_ui (ui_with_shareButton false)))
  else
    message_box (lit "Warning")
      (lit "X API keys not set or tweepy library not found. X posting disabled.");;
    modify (with_ui (ui_with_shareButton false)).

End Methods.

(** ** The event loop *)

(** What the user can do, with what a dialog answered. *)
Inductive event :=
  | LoadClicked (file_name : str)
  | TemplateClicked
  | SaveClicked
  | ClearClicked
  | ShareClicked (result : bool)
  | FontSizeMoved (value : Z)
  | PaddingMoved (value : Z)
  | TopLeftMarginMoved (value : Z)
  | BottomPaddingMoved (value : Z)
  | TopTextTyped (text : str)
  | BottomTextTyped (text : str)
  | SplashTimer.

(** The slot connected to each signal. *)
Definition handle (w : World) (e : event) : M unit :=
  match e with
  | LoadClicked file_name => load_image w file_name
  | TemplateClicked => random_gacha w
  | SaveClicked => save_image w
  | ClearClicked => clear_canvas
  | ShareClicked result => share_to_x w result
  | FontSizeMoved value => update_font_size value
  | PaddingMoved value => update_padding value
  | TopLeftMarginMoved value => update_top_left_margin value
  | BottomPaddingMoved value => update_bottom_padding value
  | TopTextTyped text => topTextEdit_setText text
  | BottomTextTyped text => bottomTextEdit_setText text
  | SplashTimer => show_splash_message
  end.

(** The window before [__init__] assigns its attributes: the widgets as
    the description file gives them. *)
Definition blank (u : Ui) : MyForm :=
  {| ui := u; image_folder := []; image := None; original_image := None;
     current_font_size := 0; current_padding := 0;
     current_top_left_margin := 0; current_bottom_padding := 0;
     font_path := None; captions := []; image_files := [];
     twitter_client := false; twitter_api := false |}.

(** The machines a session goes through: the one [__init__] leaves, then
    one event after the other, each in the surroundings of its moment. *)
Inductive reachable : Sys → Prop :=
  | reachable_init w u g s :
      init w {| self := blank u; store := []; rng := g; effects := [] |}
        = (Ok (), s) →
      reachable s
  | reachable_step w e s s' :
      reachable s →
      handle w e s = (Ok (), s') →
      reachable s'.

(** ** The compositor as the specification gives it

    [render] follows the four steps of the specification's contract, on
    pixel data and with no store: it is what [update_canvas] is compared
    with. *)

Record RenderParameters := {
  fontSize : Z;
  topPadding : Z;
  leftMargin : Z;
  bottomPadding : Z
}.

(** The font of a render: the display font at [fontSize] when its file is
    there, else the default font. *)
Definition render_font (font : option str) (p : RenderParameters)
    : outcome Font :=
  match font with
  | Some path => ImageFont_truetype path (fontSize p)
  | None => Ok ImageFont_load_default
  end.

(** The height of the bounding box of [text]. *)
Definition text_height (font : Font) (text : str) : Z :=
  let '(_, top, _, bottom) := ImageDraw_textbbox (0, 0) text font in
  bottom - top.

(** Step 3: the vertical position of the bottom text. *)
Definition y_position (imageHeight textHeight bottomPadding : Z) : Z :=
  if imageHeight - textHeight - bottomPadding <? 0
  then Z.max 10 (imageHeight - textHeight)
  else imageHeight - textHeight - bottomPadding.

(** Step 2, with the font loaded. *)
Definition render_top (font : Font) (top : str) (p : RenderParameters)
    (img : Image) : Image :=
  match top with
  | [] => img
  | _ :: _ => ImageDraw_text (leftMargin p, topPadding p) top font img
  end.

(** Step 3, the height taken from [base]. *)
Definition render_bottom (font : Font) (base : Image) (bottom : str)
    (p : RenderParameters) (img : Image) : Image :=
  match bottom with
  | [] => img
  | _ :: _ =>
      let y :=
        y_position (Image_height base) (text_height font bottom)
          (bottomPadding p) in
      ImageDraw_text (leftMargin p, y) bottom font img
  end.

(** Steps 2 and 3 on a copy of [base]. *)
Definition render_with (font : Font) (base : Image) (top bottom : str)
    (p : RenderParameters) : Image :=
  render_bottom font base bottom p (render_top font top p base).

(** The render of a tuple: there is one when the font loads. *)
Definition render (font : option str) (base : Image) (top bottom : str)
    (p : RenderParameters) : outcome Image :=
  match render_font font p with
  | Ok loaded => Ok (render_with loaded base top bottom p)
  | Raise e => Raise e
  end.

(** The render parameters and the caption text a window holds. *)
Definition parameters (f : MyForm) : RenderParameters :=
  {| fontSize := current_font_size f; topPadding := current_padding f;
     leftMargin := current_top_left_margin f;
     bottomPadding := current_bottom_padding f |}.

Definition caption_text (f : MyForm) : str * str :=
  (topTextEdit (ui f), bottomTextEdit (ui f)).

(** The render of [base] under the text and parameters of a window. *)
Definition render_of (f : MyForm) (base : Image) : outcome Image :=
  render (font_path f) base (topTextEdit (ui f)) (bottomTextEdit (ui f))
    (parameters f).

Definition default_parameters : RenderParameters :=
  {| fontSize := 75; topPadding := 20; leftMargin := 10; bottomPadding := 20 |}.

(** The pixels behind an attribute that holds an image or [None]. *)
Definition pixels_of (s : Sys) (x : option ref) : option Image :=
  r ← x; store s !! r.

(** [BaseImage] and [RenderedImage] of a machine. *)
Definition base_image (s : Sys) : option Image :=
  pixels_of s (original_image (self s)).
Definition rendered_image (s : Sys) : option Image :=
  pixels_of s (image (self s)).

(** ** Sessions *)

(** A run of events, each in its surroundings. *)
Fixpoint run (steps : list (World * event)) : M unit :=
  match steps with
  | [] => mret ()
  | (w, e) :: steps' => handle w e;; run steps'
  end.

(** The events that neither pick a new base image nor clear the canvas. *)
Definition keeps_base (e : event) : bool :=
  match e with
  | LoadClicked _ | TemplateClicked | ClearClicked => false
  | _ => true
  end.

(** The tweets among the effects: text and media. *)
Definition tweets (es : list effect) : list (str * list str) :=
  omap (λ e, match e with TweetCreated t m => Some (t, m) | _ => None end) es.


(** The picture an event asks for does not open: the file chosen in the
    dialog, or the file [random_gacha] drew from the folder. *)
Definition open_fails (w : World) (s : Sys) (ev : event) (e : exn) : Prop :=
  match ev with
  | LoadClicked file_name =>
      file_name ≠ [] ∧ Image_open w file_name = Raise e
  | TemplateClicked =>
      let folder := image_folder (self s) in
      os_path_exists w folder = true
      ∧ ∃ names name,
          let files := List.filter is_image_file names in
          os_listdir w folder = Ok names
          ∧ files !! (randbelow (length files) (rng s)).1 = Some name
          ∧ Image_open w (os_path_join w folder name) = Raise e
  | _ => False
  end.

(** *** What the proofs follow *)

(** The machine [update_canvas] leaves when it shows [img]: one more
    object, shown on the canvas and held as the current image. *)
Definition shown (img : Image) (s : Sys) : Sys :=
  with_self
    (with_image (Some (length (store s)))
       ∘ with_ui (ui_with_canvas
                    (Some (Image_resize (imageCanvas_size (ui (self s))) img))))
    (with_store (λ h, h ++ [img]) s).

(** The machine [update_canvas] leaves when the font does not load: the
    copy of the base image was made. *)
Definition copied (base : Image) (s : Sys) : Sys :=
  with_store (λ h, h ++ [base]) s.

(** [update_canvas] as a function of the machine. *)
Definition redraw (s : Sys) : Sys :=
  match image (self s), base_image s with
  | Some _, Some base =>
      match render_of (self s) base with
      | Ok img => shown img s
      | Raise _ => copied base s
      end
  | _, _ => with_self (with_ui (ui_with_canvas None)) s
  end.

(** The text the fields keep of [t]. *)
Definition top_kept (f : MyForm) (t : str) : str :=
  Qt.kept (topTextEdit_maxLength (ui f)) t.
Definition bottom_kept (f : MyForm) (t : str) : str :=
  Qt.kept (bottomTextEdit_maxLength (ui f)) t.

(** A text field set to [t]: a render when the text changed. *)
Definition set_top (t : str) (s : Sys) : Sys :=
  if Py.eqb (topTextEdit (ui (self s))) (top_kept (self s) t) then s
  else redraw (with_self (with_ui (ui_with_top (top_kept (self s) t))) s).

Definition set_bottom (t : str) (s : Sys) : Sys :=
  if Py.eqb (bottomTextEdit (ui (self s))) (bottom_kept (self s) t) then s
  else
    redraw (with_self (with_ui (ui_with_bottom (bottom_kept (self s) t))) s).

(** A slider moved: the assignment [g], then a render when there is an
    image. *)
Definition adjust (g : MyForm → MyForm) (s : Sys) : Sys :=
  if image (g (self s)) is Some _ then redraw (with_self g s)
  else with_self g s.

(** The machine after the two assignments that open a picture: the
    decoded image and its copy are two objects. *)
Definition loaded (img : Image) (s : Sys) : Sys :=
  with_self
    (with_original_image (Some (length (store s ++ [img])))
       ∘ with_image (Some (length (store s))))
    (with_store (λ h, (h ++ [img]) ++ [img]) s).

(** The machine after [random_gacha] listed the folder as [names] and
    drew a file. *)
Definition listed (names : list str) (s : Sys) : Sys :=
  let files := List.filter is_image_file names in
  with_rng (randbelow (length files) (rng s)).2
    (with_self (with_image_files files) s).

(** The image [share_to_x] sends: scaled down when a side is over 1280. *)
Definition share_image (img : Image) : Image :=
  if (1280 <? (Image_size img).1) || (1280 <? (Image_size img).2)
  then Image_thumbnail (1280, 1280) img else img.

(** The last three assignments of [clear_canvas]. *)
Definition cleared (s : Sys) : Sys :=
  with_self
    (with_ui (ui_with_canvas None) ∘ with_original_image None
       ∘ with_image None) s.

(** What an event that keeps the base image assigns to the window before
    any render. *)
Definition assigned (e : event) (f : MyForm) : MyForm :=
  match e with
  | FontSizeMoved value => with_font_size value f
  | PaddingMoved value => with_padding value f
  | TopLeftMarginMoved value => with_top_left_margin value f
  | BottomPaddingMoved value => with_bottom_padding value f
  | TopTextTyped text => with_ui (ui_with_top (top_kept f text)) f
  | BottomTextTyped text => with_ui (ui_with_bottom (bottom_kept f text)) f
  | _ => f
  end.

(** The machine after the handler of a failed load. *)
Definition unloaded (e : exn) (s : Sys) : Sys :=
  with_self (with_original_image None ∘ with_image None)
    (with_effect
       (MessageBox (lit "Error") (lit "Failed to load image: " ++ exn_str e))
       s).

(** A window without what a render writes: the current image and the
    pixmap shown. *)
Definition erase (f : MyForm) : MyForm :=
  with_image None (with_ui (ui_with_canvas None) f).

(** A current image comes with a base image that is in the store. *)
Definition based (s : Sys) : Prop :=
  match image (self s), original_image (self s) with
  | None, None => True
  | Some _, Some ro => is_Some (store s !! ro)
  | _, _ => False
  end.

(** The font loads for the window, when it holds an image. *)
Definition fonted (s : Sys) : Prop :=
  image (self s) = None ∨ ∃ font, canvas_font (self s) = Ok font.

(** The current image is a separate object that holds the render of the
    base image under the text and parameters of the moment. *)
Definition consistent (s : Sys) : Prop :=
  match image (self s), original_image (self s) with
  | None, None => True
  | Some r, Some ro =>
      r ≠ ro ∧
      ∃ base img, store s !! ro = Some base
                  ∧ store s !! r = Some img
                  ∧ render_of (self s) base = Ok img
  | _, _ => False
  end.

(** The invariant of a session. *)
Definition inv (s : Sys) : Prop :=
  consistent s ∧ captions (self s) ≠ [].

(** A render leaves [s'] from [s]: nothing but the current image and the
    pixmap differ, and the store has only grown. *)
Definition rendered_from (s s' : Sys) : Prop :=
  erase (self s') = erase (self s)
  ∧ store s `prefix_of` store s'
  ∧ rng s' = rng s
  ∧ effects s' = effects s.

(** The canvas shows the current image, scaled to the canvas. *)
Definition displayed (s : Sys) : Prop :=
  ∀ r : ref,
    image (self s) = Some r →
    ∃ img,
      store s !! r = Some img
      ∧ imageCanvas (ui (self s))
        = Some (Image_resize (imageCanvas_size (ui (self s))) img).

(** What [__init__] settles and no slot assigns: the folder, the font
    file, the caption catalog, the X client and the size of the canvas. *)
Definition settled (f : MyForm)
    : str * option str * list str * bool * bool * (Z * Z) * bool :=
  (image_folder f, font_path f, captions f, twitter_client f, twitter_api f,
   imageCanvas_size (ui f), shareButton_enabled (ui f)).

(** From [s] to [x] only the text fields, the listing of the folder, the
    images, the generator and the store moved. *)
Definition carried (s x : Sys) : Prop :=
  settled (self x) = settled (self s)
  ∧ parameters (self x) = parameters (self s)
  ∧ store s `prefix_of` store x
  ∧ effects x = effects s.

(** The file [save_image] writes for the number [n]. *)
Definition output_path (w : World) (n : Z) : str :=
  os_path_join w (lit "output") (lit "meme_" ++ Py.of_Z n ++ lit ".png").

End Program.

Arguments World {_}.
Arguments Sys {_ _}.

(** ** A small implementation of the interfaces

    An image is its size and the texts drawn on it; a font is its size; the
    generator counts.  It is what the examples run on. *)
Module Toy.

Record image := { size : Z * Z; drawn : list (Z * Z * str * Z) }.

Definition pillow : Pillow :=
  {| Image := image;
     Font := Z;
     Image_size := size;
     ImageFont_truetype := λ _ n,
       if 0 <? n then Ok n
       else Raise (Exn ValueError (lit "font size must be greater than 0"));
     ImageFont_load_default := 10;
     ImageDraw_text := λ xy text font img,
       {| size := size img; drawn := drawn img ++ [(xy, text, font)] |};
     ImageDraw_textbbox := λ xy text font,
       (xy.1, xy.2, xy.1 + font * Z.of_nat (length text) / 2,
        xy.2 + font * 4 / 5);
     Image_resize := λ sz img, {| size := sz; drawn := drawn img |};
     Image_thumbnail := λ sz img,
       {| size := (Z.min sz.1 (size img).1, Z.min sz.2 (size img).2);
          drawn := drawn img |};
     ImageDraw_text_size := λ _ _ _ _, eq_refl |}.

Definition random : Random :=
  {| RNG := nat;
     randbelow := λ n g, (g mod n, S g)%nat;
     randbelow_lt := λ n g Hn,
       Nat.mod_upper_bound g n (proj2 (Nat.neq_0_lt_0 n) Hn) |}.

Definition picture : @Image pillow := {| size := (400, 300); drawn := [] |}.

(** A folder [images] with one picture that opens and one that does not,
    and a captions file with the given rows. *)
Definition world (rows : outcome (list (list str))) : @World pillow :=
  {| resource_path := λ p, p;
     os_path_exists := λ p,
       bool_decide (p ∈ [lit "images"; lit "captions.csv"; lit "impact.ttf"]);
     os_path_join := λ a b, a ++ lit "/" ++ b;
     os_listdir := λ p,
       if bool_decide (p = lit "images")
       then Ok [lit "cat.jpg"; lit "notes.txt"; lit "DOG.PNG"]
       else Raise (Exn FileNotFoundError (lit "No such file or directory"));
     os_makedirs := λ _, Ok ();
     Image_save := λ _ _, Ok ();
     Image_open := λ p,
       if bool_decide (p = lit "images/cat.jpg") then Ok picture
       else Raise (Exn OSError (lit "cannot identify image file"));
     csv_rows := λ _, rows;
     tweepy_imported := true;
     os_getenv := λ _, Some (lit "secret");
     tweepy_Client := Ok ();
     tweepy_API := Ok ();
     media_upload := λ _ _, Ok (lit "42");
     create_tweet := λ _ _, Ok () |}.

(** The same surroundings without the folder and the files. *)
Definition bare_world : @World pillow :=
  {| resource_path := λ p, p;
     os_path_exists := λ _, false;
     os_path_join := λ a b, a ++ lit "/" ++ b;
     os_listdir := λ _,
       Raise (Exn FileNotFoundError (lit "No such file or directory"));
     os_makedirs := λ _, Ok ();
     Image_save := λ _ _, Ok ();
     Image_open := λ _, Raise (Exn FileNotFoundError (lit "No such file"));
     csv_rows := λ _, Raise (Exn FileNotFoundError (lit "No such file"));
     tweepy_imported := false;
     os_getenv := λ _, None;
     tweepy_Client := Ok ();
     tweepy_API := Ok ();
     media_upload := λ _ _, Raise (Exn OtherException (lit "offline"));
     create_tweet := λ _ _, Raise (Exn OtherException (lit "offline")) |}.

Definition widgets : @Ui pillow :=
  {| topTextEdit := []; bottomTextEdit := [];
     topTextEdit_maxLength := 32767; bottomTextEdit_maxLength := 32767;
     imageCanvas := None;
     imageCanvas_size := (600, 450); shareButton_enabled := false |}.

Definition boot (g : nat) : @Sys pillow random :=
  {| self := blank widgets; store := []; rng := (g : @RNG random);
     effects := [] |}.

(** The machine after [steps], whatever the outcome. *)
Definition after (w : @World pillow) (steps : list (@World pillow * event))
    (g : nat) : @Sys pillow random :=
  (run steps (init w (boot g)).2).2.

(** A machine with its generator set to [g]. *)
Definition reseed (g : nat) (s : @Sys pillow random) : @Sys pillow random :=
  with_rng (g : @RNG random) s.

Arguments boot g%_nat.
Arguments after w steps g%_nat.
Arguments reseed g%_nat s.

(** A captions file of three lines: a caption with a note, a blank line,
    and a line that starts with a comma. *)
Definition rows : list (list str) :=
  [[lit "SUCH WOW"; lit "doge"]; []; [[]; lit "no caption"]].

Definition studio : @World pillow := world (Ok rows).

Definition cat : str := lit "images/cat.jpg".

(** The cat loaded, [EPIC FAIL!] typed at the bottom. *)
Definition epic : @Sys pillow random :=
  after studio
    [(studio, LoadClicked cat); (studio, BottomTextTyped (lit "EPIC FAIL!"))]
    0.

(** The same text on the same picture, reached another way: the
    objects, the generator and the effects differ. *)
Definition epic' : @Sys pillow random :=
  after studio
    [(studio, SaveClicked); (studio, TemplateClicked);
     (studio, LoadClicked cat); (studio, TopTextTyped []);
     (studio, BottomTextTyped (lit "EPIC FAIL!"))] 5.

(** The cat loaded. *)
Definition opened : @Sys pillow random :=
  after studio [(studio, LoadClicked cat)] 0.

(** The cat loaded, both fields typed, the font made smaller. *)
Definition edited : @Sys pillow random :=
  after studio
    [(studio, LoadClicked cat); (studio, TopTextTyped (lit "hello"));
     (studio, BottomTextTyped (lit "world")); (studio, FontSizeMoved 40)] 0.

(** The current image of [edited]. *)
Definition meme : @Image pillow :=
  {| size := (400, 300);
     drawn := [((10, 20), lit "hello", 40); ((10, 248), lit "world", 40)] |}.

(** The studio with the X service down: uploads raise. *)
Definition offline : @World pillow :=
  {| resource_path := resource_path studio;
     os_path_exists := os_path_exists studio;
     os_path_join := os_path_join studio;
     os_listdir := os_listdir studio;
     os_makedirs := os_makedirs studio;
     Image_save := Image_save studio;
     Image_open := Image_open studio;
     csv_rows := csv_rows studio;
     tweepy_imported := true;
     os_getenv := os_getenv studio;
     tweepy_Client := Ok ();
     tweepy_API := Ok ();
     media_upload := λ _ _, Raise (Exn OtherException (lit "503 Service Unavailable"));
     create_tweet := λ _ _, Ok () |}.

(** The studio with a folder that may not be listed. *)
Definition sealed : @World pillow :=
  {| resource_path := resource_path studio;
     os_path_exists := os_path_exists studio;
     os_path_join := os_path_join studio;
     os_listdir := λ _, Raise (Exn OSError (lit "Permission denied"));
     os_makedirs := os_makedirs studio;
     Image_save := Image_save studio;
     Image_open := Image_open studio;
     csv_rows := csv_rows studio;
     tweepy_imported := true;
     os_getenv := os_getenv studio;
     tweepy_Client := Ok ();
     tweepy_API := Ok ();
     media_upload := media_upload studio;
     create_tweet := create_tweet studio |}.

(** The studio with a disk that is full: the folder is made, no file is
    written. *)
Definition full : @World pillow :=
  {| resource_path := resource_path studio;
     os_path_exists := os_path_exists studio;
     os_path_join := os_path_join studio;
     os_listdir := os_listdir studio;
     os_makedirs := os_makedirs studio;
     Image_save := λ _ _, Raise (Exn OSError (lit "No space left on device"));
     Image_open := Image_open studio;
     csv_rows := csv_rows studio;
     tweepy_imported := true;
     os_getenv := os_getenv studio;
     tweepy_Client := Ok ();
     tweepy_API := Ok ();
     media_upload := media_upload studio;
     create_tweet := create_tweet studio |}.

(** The studio with a captions file that may not be read. *)
Definition locked : @World pillow :=
  world (Raise (Exn OSError (lit "Permission denied"))).

(** The machine right after [__init__] in the studio. *)
Definition fresh : @Sys pillow random := after studio [] 0.

(** The font size moved to 0 before any picture is there. *)
Definition tiny : @Sys pillow random :=
  after studio [(studio, FontSizeMoved 0)] 0.

(** What is in the folder [images]. *)
Definition names : list str := [lit "cat.jpg"; lit "notes.txt"; lit "DOG.PNG"].

(** A session started with no font file and no keys, the cat loaded from
    the studio and a top caption typed. *)
Definition unplugged : @Sys pillow random :=
  after bare_world
    [(studio, LoadClicked cat); (studio, TopTextTyped (lit "hello"))] 0.

End Toy.

(** * Properties *)

Section Proofs.
Context `{Pillow} `{Random}.
Implicit Types (s : Sys) (f : MyForm) (img base : Image).

(** ** Running the monad *)

Lemma bind_ok {A B} (m : M A) (k : A → M B) s a s' :
  m s = (Ok a, s') → (m ≫= k) s = k a s'.
Proof. unfold mbind, M_bind. by intros ->. Qed.

Lemma bind_raise {A B} (m : M A) (k : A → M B) s e s' :
  m s = (Raise e, s') → (m ≫= k) s = (Raise e, s').
Proof. unfold mbind, M_bind. by intros ->. Qed.

Lemma try_ok {A} (body : M A) caught handler s a s' :
  body s = (Ok a, s') → try_except body caught handler s = (Ok a, s').
Proof. unfold try_except. by intros ->. Qed.

Lemma try_caught {A} (body : M A) caught handler s e s' :
  body s = (Raise e, s') → caught e = true →
  try_except body caught handler s = handler e s'.
Proof. unfold try_except. by intros -> ->. Qed.

Lemma call_ok {A} (r : outcome A) (a : A) s : r = Ok a → call r s = (Ok a, s).
Proof. by intros ->. Qed.

Lemma call_raise {A} (r : outcome A) e s :
  r = Raise e → call r s = (Raise e, s).
Proof. by intros ->. Qed.

(** ** The store *)

Lemma insert_last (h : list Image) (x y : Image) :
  <[length h := y]> (h ++ [x]) = h ++ [y].
Proof. rewrite insert_app_r_alt by lia. by rewrite Nat.sub_diag. Qed.

Lemma lookup_last (h : list Image) (x : Image) :
  (h ++ [x]) !! length h = Some x.
Proof. by rewrite lookup_app_r, Nat.sub_diag by lia. Qed.

Lemma lookup_grown (h h' : list Image) (r : ref) img :
  h `prefix_of` h' → h !! r = Some img → h' !! r = Some img.
Proof. intros [k ->] Hr. by apply lookup_app_l_Some. Qed.

(** ** The text fields *)

Lemma left_units_fits (n : Z) (t : str) :
  Z.of_nat (Qt.size t) ≤ n → Qt.left_units n t = t.
Proof.
  revert n. induction t as [|c t IH]; intros n; [done|].
  cbn [Qt.size Qt.left_units]. unfold Qt.units.
  destruct (c <? 65536)%N; intros Hn.
  - destruct (Z.leb_spec n 0); [lia|]. by rewrite IH by lia.
  - destruct (Z.leb_spec n 0); [lia|].
    destruct (Z.eqb_spec n 1); [lia|]. by rewrite IH by lia.
Qed.

(** A text within [maxLength] is kept whole. *)
Lemma kept_fits (maxLength : Z) (t : str) :
  Qt.fits maxLength t = true → Qt.kept maxLength t = t.
Proof.
  unfold Qt.fits, Qt.kept, Qt.left.
  destruct (Z.ltb_spec maxLength 0); [done|]. cbn.
  intros Hn%Z.leb_le. by apply left_units_fits.
Qed.

Lemma kept_nil (maxLength : Z) : Qt.kept maxLength [] = [].
Proof.
  unfold Qt.kept, Qt.left. by destruct (maxLength <? 0).
Qed.

(** ** The source's render is the specification's *)

Lemma canvas_font_eq f :
  canvas_font f = render_font (font_path f) (parameters f).
Proof. reflexivity. Qed.

Lemma render_of_ok f base font :
  canvas_font f = Ok font →
  render_of f base
  = Ok (render_with font base (topTextEdit (ui f)) (bottomTextEdit (ui f))
          (parameters f)).
Proof.
  rewrite canvas_font_eq. unfold render_of, render. by intros ->.
Qed.

Lemma render_of_raise f base e :
  canvas_font f = Raise e → render_of f base = Raise e.
Proof.
  rewrite canvas_font_eq. unfold render_of, render. by intros ->.
Qed.

Lemma render_of_font f base img :
  render_of f base = Ok img →
  ∃ font, canvas_font f = Ok font
          ∧ img = render_with font base (topTextEdit (ui f))
                    (bottomTextEdit (ui f)) (parameters f).
Proof.
  destruct (canvas_font f) as [font|e] eqn:Hf.
  - rewrite (render_of_ok f base font Hf). intros [= <-]. by exists font.
  - by rewrite (render_of_raise f base e Hf).
Qed.

Lemma bottom_y_eq height font text bottom_padding :
  bottom_y height (ImageDraw_textbbox (0, 0) text font) bottom_padding
  = y_position height (text_height font text) bottom_padding.
Proof.
  unfold bottom_y, text_height, y_position.
  by destruct (ImageDraw_textbbox _ _ _) as [[[? ?] ?] ?].
Qed.

Lemma Image_height_text xy text font img :
  Image_height (ImageDraw_text xy text font img) = Image_height img.
Proof. unfold Image_height. by rewrite ImageDraw_text_size. Qed.

Lemma update_canvas_run s r ro base font :
  image (self s) = Some r →
  original_image (self s) = Some ro →
  store s !! ro = Some base →
  canvas_font (self s) = Ok font →
  update_canvas s
  = (Ok (),
     shown (render_with font base (topTextEdit (ui (self s)))
              (bottomTextEdit (ui (self s))) (parameters (self s))) s).
Proof.
  intros Hi Ho Hb Hf.
  unfold update_canvas, mbind, M_bind, get. rewrite Hi.
  unfold Image_copy. rewrite Ho. unfold mbind, M_bind, pixels. rewrite Hb.
  unfold call. rewrite Hf.
  unfold shown, render_with, render_top, render_bottom.
  destruct (topTextEdit (ui (self s))) as [|c t] eqn:Et;
    destruct (bottomTextEdit (ui (self s))) as [|c' t'] eqn:Eb;
    cbn; unfold mutate, modify, with_self, with_store; cbn;
    repeat (first [ rewrite insert_last | rewrite lookup_last
                  | rewrite bottom_y_eq | rewrite Image_height_text ]; cbn);
    reflexivity.
Qed.

(** The font does not load: the exception leaves [update_canvas] after
    the copy was made, the window as it was. *)
Lemma update_canvas_raise s r ro base e :
  image (self s) = Some r →
  original_image (self s) = Some ro →
  store s !! ro = Some base →
  canvas_font (self s) = Raise e →
  update_canvas s = (Raise e, copied base s).
Proof.
  intros Hi Ho Hb Hf.
  unfold update_canvas, mbind, M_bind, get. rewrite Hi.
  unfold Image_copy. rewrite Ho. unfold mbind, M_bind, pixels. rewrite Hb.
  unfold call. by rewrite Hf.
Qed.

Lemma update_canvas_none s :
  image (self s) = None →
  update_canvas s = (Ok (), with_self (with_ui (ui_with_canvas None)) s).
Proof.
  intros Hi. unfold update_canvas, mbind, M_bind, get. by rewrite Hi.
Qed.

Lemma update_canvas_redraw s :
  based s → fonted s → update_canvas s = (Ok (), redraw s).
Proof.
  unfold based, fonted, redraw, base_image, pixels_of.
  destruct (image (self s)) as [r|] eqn:Hi;
    destruct (original_image (self s)) as [ro|] eqn:Ho; try done.
  - intros [base Hb] [?|[font Hf]]; [done|]. cbn. rewrite Hb.
    rewrite (render_of_ok _ base font Hf). by eapply update_canvas_run.
  - intros _ _. by apply update_canvas_none.
Qed.

(** [update_canvas] raises exactly what loading the font raises. *)
Lemma update_canvas_unfonted s base e :
  image (self s) ≠ None → base_image s = Some base →
  canvas_font (self s) = Raise e →
  update_canvas s = (Raise e, copied base s).
Proof.
  unfold base_image, pixels_of. intros Hi Hb Hf.
  destruct (image (self s)) as [r|] eqn:Er; [|done].
  destruct (original_image (self s)) as [ro|] eqn:Ho; [|done].
  by eapply update_canvas_raise.
Qed.

(** ** What a render leaves alone *)

Lemma rendered_from_refl s : rendered_from s s.
Proof. by unfold rendered_from. Qed.

Lemma rendered_from_trans s1 s2 s3 :
  rendered_from s1 s2 → rendered_from s2 s3 → rendered_from s1 s3.
Proof.
  intros (E1 & P1 & G1 & F1) (E2 & P2 & G2 & F2).
  repeat split; [congruence | by etrans | congruence | congruence].
Qed.

Lemma rendered_from_copied base s : rendered_from s (copied base s).
Proof. repeat split; cbn; try done. by apply prefix_app_r. Qed.

Lemma rendered_from_redraw s : rendered_from s (redraw s).
Proof.
  unfold redraw.
  destruct (image (self s)), (base_image s) as [base|];
    [destruct (render_of _ _)|..]; repeat split; cbn;
    try done; by apply prefix_app_r.
Qed.

Lemma erased_parameters f f' :
  erase f' = erase f → parameters f' = parameters f.
Proof.
  intros E. change (parameters (erase f') = parameters (erase f)).
  by rewrite E.
Qed.

Lemma erased_caption_text f f' :
  erase f' = erase f → caption_text f' = caption_text f.
Proof.
  intros E. change (caption_text (erase f') = caption_text (erase f)).
  by rewrite E.
Qed.

Lemma erased_captions f f' : erase f' = erase f → captions f' = captions f.
Proof.
  intros E. change (captions (erase f') = captions (erase f)).
  by rewrite E.
Qed.

Lemma erased_original_image f f' :
  erase f' = erase f → original_image f' = original_image f.
Proof.
  intros E. change (original_image (erase f') = original_image (erase f)).
  by rewrite E.
Qed.

Lemma erased_canvas_font f f' :
  erase f' = erase f → canvas_font f' = canvas_font f.
Proof.
  intros E. change (canvas_font (erase f') = canvas_font (erase f)).
  by rewrite E.
Qed.

Lemma erased_render_of f f' base :
  erase f' = erase f → render_of f' base = render_of f base.
Proof.
  intros E. change (render_of (erase f') base = render_of (erase f) base).
  by rewrite E.
Qed.

Lemma rendered_from_base s s' base :
  rendered_from s s' → base_image s = Some base → base_image s' = Some base.
Proof.
  intros (E & P & _ & _). unfold base_image, pixels_of.
  rewrite (erased_original_image _ _ E).
  destruct (original_image (self s)) as [ro|]; [|done]. cbn.
  by apply lookup_grown.
Qed.

(** ** The invariant *)

Lemma consistent_based s : consistent s → based s.
Proof.
  unfold consistent, based.
  destruct (image (self s)), (original_image (self s)); try done.
  intros (_ & base & img & Hb & _). by exists base.
Qed.

Lemma consistent_fonted s : consistent s → fonted s.
Proof.
  unfold consistent, fonted.
  destruct (image (self s)), (original_image (self s)); try done;
    [|by left].
  intros (_ & base & img & _ & _ & Hr). right.
  apply render_of_font in Hr as (font & Hf & _). by exists font.
Qed.

Lemma redraw_based s : based s → based (redraw s).
Proof.
  unfold based, redraw, base_image, pixels_of.
  destruct (image (self s)) as [r|] eqn:Hi;
    destruct (original_image (self s)) as [ro|] eqn:Ho; try done.
  - intros [base Hb]. cbn. rewrite Hb.
    destruct (render_of _ _); cbn; rewrite ?Hi, Ho;
      exists base; by apply lookup_app_l_Some.
  - intros _. cbn. by rewrite Hi, Ho.
Qed.

Lemma redraw_fonted s : fonted s → fonted (redraw s).
Proof.
  intros Hf. destruct (rendered_from_redraw s) as (E & _).
  destruct Hf as [Hi|[font Hf]].
  - left. unfold redraw. by rewrite Hi.
  - right. exists font. by rewrite (erased_canvas_font _ _ E).
Qed.

Lemma redraw_consistent s : based s → fonted s → consistent (redraw s).
Proof.
  unfold based, fonted, redraw, base_image, pixels_of, consistent.
  destruct (image (self s)) as [r|] eqn:Hi;
    destruct (original_image (self s)) as [ro|] eqn:Ho; try done.
  - intros [base Hb] [?|[font Hf]]; [done|]. cbn. rewrite Hb.
    rewrite (render_of_ok _ base font Hf). cbn. rewrite Ho. split.
    + apply lookup_lt_Some in Hb. lia.
    + eexists base, _. split; [by apply lookup_app_l_Some|].
      split; [by rewrite lookup_last|].
      by apply (render_of_ok (self s) base font).
  - intros _ _. cbn. by rewrite Hi, Ho.
Qed.

Lemma consistent_rendered s base :
  consistent s → base_image s = Some base → image (self s) ≠ None →
  ∃ img, rendered_image s = Some img
         ∧ render_of (self s) base = Ok img
         ∧ image (self s) ≠ original_image (self s).
Proof.
  unfold consistent, base_image, rendered_image, pixels_of.
  destruct (image (self s)) as [r|], (original_image (self s)) as [ro|];
    try done.
  cbn. intros (Hne & base' & img & Hb & Hr & Hrender) Hb' _.
  exists img. split; [done|]. split; [congruence|congruence].
Qed.

Lemma based_with_self (g : MyForm → MyForm) s :
  image (g (self s)) = image (self s) →
  original_image (g (self s)) = original_image (self s) →
  based s → based (with_self g s).
Proof. unfold based. cbn. by intros -> ->. Qed.

Lemma fonted_with_self (g : MyForm → MyForm) s :
  image (g (self s)) = image (self s) →
  canvas_font (g (self s)) = canvas_font (self s) →
  fonted s → fonted (with_self g s).
Proof. unfold fonted. cbn. by intros -> ->. Qed.

Lemma based_loaded img s : based (loaded img s).
Proof.
  unfold based, loaded. cbn. rewrite lookup_last. by eexists.
Qed.

Lemma fonted_loaded img s font :
  canvas_font (self s) = Ok font → fonted (loaded img s).
Proof. intros Hf. right. by exists font. Qed.

(** ** The slots, one by one *)

Lemma with_top_same f :
  with_ui (ui_with_top (topTextEdit (ui f))) f = f.
Proof. by destruct f as [[] ?]. Qed.

Lemma with_bottom_same f :
  with_ui (ui_with_bottom (bottomTextEdit (ui f))) f = f.
Proof. by destruct f as [[] ?]. Qed.

Lemma with_self_same (g : MyForm → MyForm) s :
  g (self s) = self s → with_self g s = s.
Proof. destruct s. unfold with_self. cbn. by intros ->. Qed.

Lemma topTextEdit_setText_run t s :
  based s → fonted s → topTextEdit_setText t s = (Ok (), set_top t s).
Proof.
  intros Hb Hf. unfold topTextEdit_setText, set_top, top_kept, mbind, M_bind, get.
  destruct (Py.eqb _ _); [done|]. cbn.
  apply update_canvas_redraw; [by apply based_with_self|].
  by apply fonted_with_self.
Qed.

Lemma bottomTextEdit_setText_run t s :
  based s → fonted s → bottomTextEdit_setText t s = (Ok (), set_bottom t s).
Proof.
  intros Hb Hf.
  unfold bottomTextEdit_setText, set_bottom, bottom_kept, mbind, M_bind, get.
  destruct (Py.eqb _ _); [done|]. cbn.
  apply update_canvas_redraw; [by apply based_with_self|].
  by apply fonted_with_self.
Qed.

Lemma set_top_rendered_from t s :
  rendered_from (with_self (with_ui (ui_with_top (top_kept (self s) t))) s)
    (set_top t s).
Proof.
  unfold set_top, Py.eqb. case_bool_decide as E.
  - rewrite <- E. rewrite with_self_same by apply with_top_same.
    apply rendered_from_refl.
  - apply rendered_from_redraw.
Qed.

Lemma set_bottom_rendered_from t s :
  rendered_from
    (with_self (with_ui (ui_with_bottom (bottom_kept (self s) t))) s)
    (set_bottom t s).
Proof.
  unfold set_bottom, Py.eqb. case_bool_decide as E.
  - rewrite <- E. rewrite with_self_same by apply with_bottom_same.
    apply rendered_from_refl.
  - apply rendered_from_redraw.
Qed.

Lemma set_top_based t s : based s → based (set_top t s).
Proof.
  intros Hb. unfold set_top. destruct (Py.eqb _ _); [done|].
  by apply redraw_based, based_with_self.
Qed.

Lemma set_bottom_based t s : based s → based (set_bottom t s).
Proof.
  intros Hb. unfold set_bottom. destruct (Py.eqb _ _); [done|].
  by apply redraw_based, based_with_self.
Qed.

Lemma set_top_fonted t s : fonted s → fonted (set_top t s).
Proof.
  intros Hf. unfold set_top. destruct (Py.eqb _ _); [done|].
  by apply redraw_fonted, fonted_with_self.
Qed.

Lemma set_bottom_fonted t s : fonted s → fonted (set_bottom t s).
Proof.
  intros Hf. unfold set_bottom. destruct (Py.eqb _ _); [done|].
  by apply redraw_fonted, fonted_with_self.
Qed.

Lemma set_top_consistent t s : consistent s → consistent (set_top t s).
Proof.
  intros Hc. unfold set_top. destruct (Py.eqb _ _); [done|].
  apply redraw_consistent.
  - by apply based_with_self, consistent_based.
  - by apply fonted_with_self, consistent_fonted.
Qed.

Lemma set_bottom_consistent t s : consistent s → consistent (set_bottom t s).
Proof.
  intros Hc. unfold set_bottom. destruct (Py.eqb _ _); [done|].
  apply redraw_consistent.
  - by apply based_with_self, consistent_based.
  - by apply fonted_with_self, consistent_fonted.
Qed.

Lemma adjust_run (g : MyForm → MyForm) s :
  based (with_self g s) → fonted (with_self g s) →
  (modify g;; f ← get; if image f is Some _ then update_canvas else mret ()) s
  = (Ok (), adjust g s).
Proof.
  intros Hb Hf. unfold adjust, mbind, M_bind, modify, get. cbn.
  destruct (image (g (self s))); [|done].
  by apply update_canvas_redraw.
Qed.

(** A slider whose render does not find its font: the value is assigned
    and the exception leaves the slot. *)
Lemma adjust_raise (g : MyForm → MyForm) s base e :
  image (g (self s)) ≠ None →
  base_image (with_self g s) = Some base →
  canvas_font (g (self s)) = Raise e →
  (modify g;; f ← get; if image f is Some _ then update_canvas else mret ()) s
  = (Raise e, copied base (with_self g s)).
Proof.
  intros Hi Hb Hf. unfold mbind, M_bind, modify, get. cbn.
  destruct (image (g (self s))) eqn:Er; [|done].
  apply update_canvas_unfonted; [|done..]. cbn. by rewrite Er.
Qed.

(** A slider that returned found its font. *)
Lemma adjust_returned (g : MyForm → MyForm) s s' :
  based (with_self g s) →
  (modify g;; f ← get; if image f is Some _ then update_canvas else mret ()) s
  = (Ok (), s') →
  fonted (with_self g s).
Proof.
  intros Hb Hrun. unfold fonted. cbn.
  destruct (image (g (self s))) as [r|] eqn:Hi; [right|by left].
  destruct (canvas_font (g (self s))) as [font|e] eqn:Hf; [by exists font|].
  revert Hb. unfold based. cbn. rewrite Hi.
  destruct (original_image (g (self s))) as [ro|] eqn:Ho; [|done].
  intros [base Hb].
  rewrite (adjust_raise g s base e) in Hrun; [done|by rewrite Hi| |done].
  unfold base_image, pixels_of. cbn. by rewrite Ho.
Qed.

Lemma adjust_rendered_from (g : MyForm → MyForm) s :
  rendered_from (with_self g s) (adjust g s).
Proof.
  unfold adjust. destruct (image (g (self s)));
    [apply rendered_from_redraw | apply rendered_from_refl].
Qed.

Lemma adjust_consistent (g : MyForm → MyForm) s :
  based (with_self g s) → fonted (with_self g s) → consistent (adjust g s).
Proof.
  intros Hb Hf. unfold adjust.
  destruct (image (g (self s))) eqn:Hi; [by apply redraw_consistent|].
  revert Hb. unfold based, consistent. cbn. rewrite Hi.
  by destruct (original_image (g (self s))).
Qed.

Lemma Image_copy_run (r : ref) img s :
  store s !! r = Some img →
  Image_copy (Some r) s
  = (Ok (length (store s)), with_store (λ h, h ++ [img]) s).
Proof.
  intros Hr. unfold Image_copy, mbind, M_bind, pixels. by rewrite Hr.
Qed.

Lemma base_image_loaded img s : base_image (loaded img s) = Some img.
Proof. unfold base_image, loaded. cbn. apply lookup_last. Qed.

(** The three ends of [load_image]: the picture does not open; it opens
    and is rendered; it opens and the font of the render does not load,
    which the same handler catches. *)
Lemma load_image_run w file_name s :
  load_image w file_name s
  = (Ok (),
     match file_name with
     | [] => s
     | _ :: _ =>
         match Image_open w file_name with
         | Ok img =>
             match canvas_font (self s) with
             | Ok _ => redraw (loaded img s)
             | Raise e => unloaded e (copied img (loaded img s))
             end
         | Raise e => unloaded e s
         end
     end).
Proof.
  unfold load_image. destruct file_name as [|c fn]; [done|].
  cbn [Py.truthy]. destruct (Image_open w (c :: fn)) as [img|e] eqn:E.
  - destruct (canvas_font (self s)) as [font|e] eqn:Hf.
    + apply try_ok.
      erewrite bind_ok by by apply call_ok.
      do 3 (erewrite bind_ok by reflexivity).
      erewrite bind_ok by (apply Image_copy_run, lookup_last).
      erewrite bind_ok by reflexivity.
      apply (update_canvas_redraw (loaded img s));
        [apply based_loaded|by eapply fonted_loaded].
    + erewrite try_caught; [reflexivity| |done].
      erewrite bind_ok by by apply call_ok.
      do 3 (erewrite bind_ok by reflexivity).
      erewrite bind_ok by (apply Image_copy_run, lookup_last).
      erewrite bind_ok by reflexivity.
      apply (update_canvas_unfonted (loaded img s)); [done| |done].
      apply base_image_loaded.
  - erewrite try_caught; [reflexivity| |done].
    erewrite bind_raise; [done|]. by apply call_raise.
Qed.

Lemma clear_canvas_run s :
  based s → fonted s →
  clear_canvas s = (Ok (), cleared (set_bottom [] (set_top [] s))).
Proof.
  intros Hb Hf. unfold clear_canvas.
  erewrite bind_ok by by apply topTextEdit_setText_run.
  erewrite bind_ok
    by (apply bottomTextEdit_setText_run;
        [by apply set_top_based|by apply set_top_fonted]).
  reflexivity.
Qed.

Lemma random_choice_run {A} (seq : list A) s :
  seq ≠ [] →
  ∃ x, seq !! (randbelow (length seq) (rng s)).1 = Some x
       ∧ random_choice seq s
         = (Ok x, with_rng (randbelow (length seq) (rng s)).2 s).
Proof.
  intros Hne. unfold random_choice. destruct seq as [|a seq]; [done|].
  destruct (randbelow _ _) as [i g] eqn:E.
  destruct (lookup_lt_is_Some_2 (a :: seq) i) as [x Hx].
  { pose proof (randbelow_lt (length (a :: seq)) (rng s)) as Hlt.
    rewrite E in Hlt. apply Hlt. cbn. lia. }
  exists x. cbn [fst snd]. by rewrite Hx.
Qed.

Lemma random_choice_at {A} (seq : list A) s x :
  seq !! (randbelow (length seq) (rng s)).1 = Some x →
  random_choice seq s = (Ok x, with_rng (randbelow (length seq) (rng s)).2 s).
Proof.
  intros Hx. destruct (random_choice_run seq s) as (y & Hy & ->).
  - intros ->. by rewrite lookup_nil in Hx.
  - congruence.
Qed.

(** *** Random selection *)

Lemma random_gacha_missing w s :
  os_path_exists w (image_folder (self s)) = false →
  random_gacha w s
  = (Ok (),
     with_effect
       (MessageBox (lit "Warning")
          (lit "Images folder not found: " ++ image_folder (self s))) s).
Proof.
  intros E. unfold random_gacha, mbind, M_bind, get. by rewrite E.
Qed.

(** The folder is there and cannot be listed: the exception leaves the
    slot, nothing is changed. *)
Lemma random_gacha_unlisted w s e :
  os_path_exists w (image_folder (self s)) = true →
  os_listdir w (image_folder (self s)) = Raise e →
  random_gacha w s = (Raise e, s).
Proof.
  intros E El. unfold random_gacha.
  erewrite bind_ok by reflexivity. rewrite E. cbn [negb].
  by erewrite bind_raise by by apply call_raise.
Qed.

Lemma random_gacha_empty w s names :
  os_path_exists w (image_folder (self s)) = true →
  os_listdir w (image_folder (self s)) = Ok names →
  List.filter is_image_file names = [] →
  random_gacha w s
  = (Ok (),
     with_effect
       (MessageBox (lit "Warning") (lit "No images found in images folder!"))
       (with_self (with_image_files []) s)).
Proof.
  intros E El Ef. unfold random_gacha.
  erewrite bind_ok by reflexivity. rewrite E. cbn [negb].
  erewrite bind_ok by by apply call_ok.
  do 2 (erewrite bind_ok by reflexivity). cbn. by rewrite Ef.
Qed.

Lemma random_gacha_drawn w s names name :
  os_path_exists w (image_folder (self s)) = true →
  os_listdir w (image_folder (self s)) = Ok names →
  image_files (self (listed names s))
    !! (randbelow (length (image_files (self (listed names s)))) (rng s)).1
    = Some name →
  random_gacha w s
  = try_except
      (img ← call (Image_open w (os_path_join w (image_folder (self s)) name));
       r ← new_image img;
       modify (with_image (Some r));;
       f ← get;
       r' ← Image_copy (image f);
       modify (with_original_image (Some r'));;
       f ← get;
       caption ← random_choice (captions f);
       topTextEdit_setText caption;;
       bottomTextEdit_setText [];;
       update_canvas)
      is_Exception load_failed (listed names s).
Proof.
  intros E El Hname. unfold random_gacha.
  erewrite bind_ok by reflexivity. rewrite E. cbn [negb].
  erewrite bind_ok by by apply call_ok.
  do 2 (erewrite bind_ok by reflexivity).
  unfold listed in *. cbn in Hname |- *.
  destruct (List.filter _ _) as [|a l] eqn:Ef; [done|].
  erewrite bind_ok by by apply random_choice_at.
  reflexivity.
Qed.

Lemma random_gacha_failed w s names name e :
  os_path_exists w (image_folder (self s)) = true →
  os_listdir w (image_folder (self s)) = Ok names →
  image_files (self (listed names s))
    !! (randbelow (length (image_files (self (listed names s)))) (rng s)).1
    = Some name →
  Image_open w (os_path_join w (image_folder (self s)) name) = Raise e →
  random_gacha w s = (Ok (), unloaded e (listed names s)).
Proof.
  intros E El Hname Ho. rewrite (random_gacha_drawn w s names name) by done.
  erewrite try_caught; [reflexivity| |done].
  erewrite bind_raise; [done|]. by apply call_raise.
Qed.

Lemma based_with_rng g s : based s → based (with_rng g s).
Proof. done. Qed.

Lemma random_gacha_picked w s names name img caption font :
  os_path_exists w (image_folder (self s)) = true →
  os_listdir w (image_folder (self s)) = Ok names →
  image_files (self (listed names s))
    !! (randbelow (length (image_files (self (listed names s)))) (rng s)).1
    = Some name →
  Image_open w (os_path_join w (image_folder (self s)) name) = Ok img →
  captions (self s)
    !! (randbelow (length (captions (self s))) (rng (listed names s))).1
    = Some caption →
  canvas_font (self s) = Ok font →
  random_gacha w s
  = (Ok (),
     redraw
       (set_bottom []
          (set_top caption
             (with_rng
                (randbelow (length (captions (self s)))
                   (rng (listed names s))).2
                (loaded img (listed names s)))))).
Proof.
  intros E El Hname Ho Hc Hfont.
  rewrite (random_gacha_drawn w s names name) by done.
  apply try_ok.
  erewrite bind_ok by by apply call_ok.
  do 3 (erewrite bind_ok by reflexivity).
  erewrite bind_ok by (apply Image_copy_run, lookup_last).
  do 2 (erewrite bind_ok by reflexivity).
  erewrite bind_ok by (apply random_choice_at; exact Hc).
  pose proof (based_with_rng
                (randbelow (length (captions (self s)))
                   (rng (listed names s))).2
                _ (based_loaded img (listed names s))) as Hb.
  match type of Hb with based ?x => assert (Hf : fonted x) end.
  { right. by exists font. }
  erewrite bind_ok by (apply topTextEdit_setText_run; [exact Hb|exact Hf]).
  erewrite bind_ok
    by (apply bottomTextEdit_setText_run;
        [apply set_top_based; exact Hb|apply set_top_fonted; exact Hf]).
  apply update_canvas_redraw.
  - apply set_bottom_based, set_top_based, Hb.
  - apply set_bottom_fonted, set_top_fonted, Hf.
Qed.

(** The two [setText] and the render of [random_gacha] when the font
    does not load: the first render that is run raises. *)
Lemma picked_unrendered caption s img e :
  image (self s) ≠ None → base_image s = Some img →
  canvas_font (self s) = Raise e →
  ∃ x,
    (topTextEdit_setText caption;; bottomTextEdit_setText [];; update_canvas) s
    = (Raise e, x)
    ∧ carried s x.
Proof.
  intros Hi Hb Hf.
  assert (Hraise : ∀ g : Ui → Ui,
             imageCanvas_size ∘ g = imageCanvas_size →
             shareButton_enabled ∘ g = shareButton_enabled →
             update_canvas (with_self (with_ui g) s)
             = (Raise e, copied img (with_self (with_ui g) s))
             ∧ carried s (copied img (with_self (with_ui g) s))).
  { intros g Hg1 Hg2. split.
    - by apply update_canvas_unfonted.
    - unfold carried, settled. cbn.
      change (imageCanvas_size (g (ui (self s))))
        with ((imageCanvas_size ∘ g) (ui (self s))).
      change (shareButton_enabled (g (ui (self s))))
        with ((shareButton_enabled ∘ g) (ui (self s))).
      rewrite Hg1, Hg2. split_and!; try done. by apply prefix_app_r. }
  destruct (Py.eqb (topTextEdit (ui (self s)))
              (Qt.kept (topTextEdit_maxLength (ui (self s))) caption)) eqn:Et.
  - assert (H1 : topTextEdit_setText caption s = (Ok (), s)).
    { unfold topTextEdit_setText, mbind, M_bind, get. by rewrite Et. }
    erewrite bind_ok by exact H1.
    destruct (Py.eqb (bottomTextEdit (ui (self s)))
                (Qt.kept (bottomTextEdit_maxLength (ui (self s))) [])) eqn:Eb.
    + assert (H2 : bottomTextEdit_setText [] s = (Ok (), s)).
      { unfold bottomTextEdit_setText, mbind, M_bind, get. by rewrite Eb. }
      erewrite bind_ok by exact H2.
      exists (copied img s). split; [by apply update_canvas_unfonted|].
      unfold carried. split_and!; try done. by apply prefix_app_r.
    + destruct (Hraise (ui_with_bottom
                          (Qt.kept (bottomTextEdit_maxLength (ui (self s))) [])))
        as [Hu Hc]; [done..|].
      eexists. split; [|exact Hc].
      erewrite bind_raise; [reflexivity|].
      unfold bottomTextEdit_setText, mbind, M_bind, get. rewrite Eb.
      unfold modify. exact Hu.
  - destruct (Hraise (ui_with_top
                        (Qt.kept (topTextEdit_maxLength (ui (self s))) caption)))
      as [Hu Hc]; [done..|].
    eexists. split; [|exact Hc].
    erewrite bind_raise; [reflexivity|].
    unfold topTextEdit_setText, mbind, M_bind, get. rewrite Et.
    unfold modify. exact Hu.
Qed.

(** The picture opens and the font of the render does not load: the
    handler of the slot shows the error and leaves no image. *)
Lemma random_gacha_unrendered w s names name img e :
  os_path_exists w (image_folder (self s)) = true →
  os_listdir w (image_folder (self s)) = Ok names →
  image_files (self (listed names s))
    !! (randbelow (length (image_files (self (listed names s)))) (rng s)).1
    = Some name →
  Image_open w (os_path_join w (image_folder (self s)) name) = Ok img →
  captions (self s) ≠ [] →
  canvas_font (self s) = Raise e →
  ∃ x, random_gacha w s = (Ok (), unloaded e x) ∧ carried s x.
Proof.
  intros E El Hname Ho Hcap Hfont.
  rewrite (random_gacha_drawn w s names name) by done.
  destruct (random_choice_run (captions (self s)) (loaded img (listed names s)))
    as (caption & _ & Hc); [done|].
  set (s1 := with_rng _ (loaded img (listed names s))) in Hc.
  destruct (picked_unrendered caption s1 img e) as (x & Hx & Hcar);
    [done|apply (base_image_loaded img (listed names s))|exact Hfont|].
  exists x. split.
  - erewrite try_caught; [reflexivity| |done].
    erewrite bind_ok by by apply call_ok.
    do 3 (erewrite bind_ok by reflexivity).
    erewrite bind_ok by (apply Image_copy_run, lookup_last).
    do 2 (erewrite bind_ok by reflexivity).
    erewrite bind_ok by exact Hc.
    exact Hx.
  - destruct Hcar as (Hs & Hp & Hpre & He). unfold carried.
    split_and!; [exact Hs|exact Hp| |exact He].
    etrans; [|exact Hpre]. cbn. rewrite <- app_assoc. by apply prefix_app_r.
Qed.

(** *** Saving and sharing *)

Lemma consistent_held s r :
  consistent s → image (self s) = Some r → is_Some (store s !! r).
Proof.
  unfold consistent. intros Hc Hi. rewrite Hi in Hc.
  destruct (original_image (self s)); [|done].
  destruct Hc as (_ & base & img & _ & Hr & _). by eexists.
Qed.

Lemma tweets_message (es : list effect) title text :
  tweets (es ++ [MessageBox title text]) = tweets es.
Proof. unfold tweets. rewrite omap_app. cbn. by rewrite app_nil_r. Qed.

Lemma save_image_none w s :
  image (self s) = None →
  save_image w s
  = (Ok (),
     with_effect (MessageBox (lit "Warning") (lit "No image to save!")) s).
Proof.
  intros Hi. unfold save_image. erewrite bind_ok by reflexivity.
  by rewrite Hi.
Qed.

(** The three ends of [save_image] with an image: the folder cannot be
    made; the file cannot be written; the file is written. *)
Lemma save_image_cases w s (r : ref) img :
  image (self s) = Some r →
  store s !! r = Some img →
  let draw := randbelow (Z.to_nat (1000 - 1 + 1)) (rng s) in
  let path := output_path w (1 + Z.of_nat draw.1) in
  let s1 := with_rng draw.2 (with_effect (MakeDirs (lit "output")) s) in
  save_image w s
  = match os_makedirs w (lit "output") with
    | Raise e => (Raise e, s)
    | Ok _ =>
        match Image_save w path img with
        | Raise e => (Raise e, s1)
        | Ok _ =>
            (Ok (),
             with_effect
               (MessageBox (lit "Saved") (lit "Image saved as " ++ path))
               (with_effect (ImageSaved path img) s1))
        end
    end.
Proof.
  intros Hi Hr draw path s1. unfold save_image.
  erewrite bind_ok by reflexivity. rewrite Hi.
  destruct (os_makedirs w (lit "output")) as [[]|e] eqn:Hm;
    [|by erewrite bind_raise by by apply call_raise].
  erewrite bind_ok by by apply call_ok.
  erewrite bind_ok by reflexivity.
  unfold mbind at 1, M_bind at 1, random_randint. cbn [rng with_effect].
  subst s1 path draw. unfold output_path.
  destruct (randbelow _ _) as [i g]. cbn [fst snd].
  erewrite bind_ok by (unfold pixels; cbn; by rewrite Hr).
  destruct (Image_save w _ img) as [[]|e] eqn:Hs.
  - erewrite bind_ok by reflexivity.
    by erewrite bind_ok by reflexivity.
  - by erewrite bind_raise by reflexivity.
Qed.

(** Whatever its end, [save_image] leaves the window and the objects, and
    posts nothing. *)
Lemma save_image_frame w s o s' :
  consistent s →
  save_image w s = (o, s') →
  self s' = self s ∧ store s' = store s
  ∧ tweets (effects s') = tweets (effects s).
Proof.
  intros Hc. destruct (image (self s)) as [r|] eqn:Hi.
  - destruct (consistent_held s r Hc Hi) as [img Hr].
    rewrite (save_image_cases w s r img Hi Hr).
    destruct (os_makedirs w (lit "output")) as [[]|e];
      [destruct (Image_save w _ img) as [[]|e]|];
      intros [= <- <-]; split_and!; try done; cbn; unfold tweets;
      rewrite !omap_app; cbn; by rewrite !app_nil_r.
  - rewrite save_image_none by done.
    intros [= <- <-]. split_and!; try done. cbn. apply tweets_message.
Qed.

Lemma shrink_run img s :
  (if (1280 <? (Image_size img).1) || (1280 <? (Image_size img).2)
   then mutate (length (store s)) (Image_thumbnail (1280, 1280))
   else mret ()) (with_store (λ h, h ++ [img]) s)
  = (Ok (), with_store (λ h, h ++ [share_image img]) s).
Proof.
  unfold share_image. destruct (_ || _); [|done].
  unfold mutate. cbn. rewrite lookup_last.
  unfold with_store. cbn. by rewrite insert_last.
Qed.


Lemma share_to_x_frame w result s :
  consistent s →
  ∃ s', share_to_x w result s = (Ok (), s')
        ∧ self s' = self s
        ∧ store s `prefix_of` store s'
        ∧ rng s' = rng s.
Proof.
  intros Hc. unfold share_to_x. erewrite bind_ok by reflexivity.
  destruct (image (self s)) as [r|] eqn:Hi; [|by eexists].
  destruct (_ || _); [by eexists|].
  destruct result; [|by eexists].
  destruct (consistent_held s r Hc Hi) as [img Hr].
  unfold try_except.
  erewrite bind_ok by by apply Image_copy_run.
  erewrite bind_ok by (unfold pixels; cbn; by rewrite lookup_last).
  erewrite bind_ok by apply shrink_run.
  erewrite bind_ok by (unfold pixels; cbn; by rewrite lookup_last).
  do 2 (erewrite bind_ok by reflexivity).
  destruct (media_upload w (lit "temp_meme.png") (share_image img))
    as [media|e].
  - do 2 (erewrite bind_ok by reflexivity).
    destruct (create_tweet w _ [media]) as [[]|e].
    + do 3 (erewrite bind_ok by reflexivity).
      eexists. split; [reflexivity|]. cbn. repeat split.
      by apply prefix_app_r.
    + erewrite bind_raise by reflexivity.
      eexists. split; [reflexivity|]. cbn. repeat split.
      by apply prefix_app_r.
  - erewrite bind_raise by reflexivity.
    eexists. split; [reflexivity|]. cbn. repeat split.
    by apply prefix_app_r.
Qed.

(** ** The caption store *)

Lemma load_captions_missing w s :
  os_path_exists w (resource_path w (lit "captions.csv")) = false →
  load_captions w s
  = (Ok default_captions,
     with_effect
       (MessageBox (lit "Warning")
          (lit "Captions file not found: "
             ++ resource_path w (lit "captions.csv")
             ++ lit ". Using default captions.")) s).
Proof. intros E. unfold load_captions. by rewrite E. Qed.

Lemma load_captions_rows w s rows :
  os_path_exists w (resource_path w (lit "captions.csv")) = true →
  csv_rows w (resource_path w (lit "captions.csv")) = Ok rows →
  load_captions w s
  = match first_columns rows with
    | [] =>
        (Ok default_captions,
         with_effect
           (MessageBox (lit "Warning")
              (lit "Failed to load captions: " ++ lit "captions.csv is empty"
                 ++ lit ". Using default captions.")) s)
    | _ :: _ => (Ok (first_columns rows), s)
    end.
Proof.
  intros E Er. unfold load_captions. rewrite E. cbn [negb].
  unfold try_except. erewrite bind_ok by by apply call_ok.
  by destruct (first_columns rows).
Qed.

Lemma load_captions_caught w s e :
  os_path_exists w (resource_path w (lit "captions.csv")) = true →
  csv_rows w (resource_path w (lit "captions.csv")) = Raise e →
  is_FileNotFoundError e || is_ValueError e = true →
  load_captions w s
  = (Ok default_captions,
     with_effect
       (MessageBox (lit "Warning")
          (lit "Failed to load captions: " ++ exn_str e
             ++ lit ". Using default captions.")) s).
Proof.
  intros E Er Hc. unfold load_captions. rewrite E. cbn [negb].
  unfold try_except. erewrite bind_raise by by apply call_raise.
  by rewrite Hc.
Qed.

Lemma load_captions_returned w s captions s' :
  load_captions w s = (Ok captions, s') →
  captions ≠ [] ∧ self s' = self s ∧ store s' = store s.
Proof.
  destruct (os_path_exists w (resource_path w (lit "captions.csv"))) eqn:E.
  - destruct (csv_rows w (resource_path w (lit "captions.csv")))
      as [rows|e] eqn:Er.
    + rewrite (load_captions_rows _ _ rows) by done.
      destruct (first_columns rows) eqn:Ef; by intros [= <- <-].
    + unfold load_captions. rewrite E. cbn [negb]. unfold try_except.
      erewrite bind_raise by by apply call_raise.
      destruct (_ || _); [|done]. by intros [= <- <-].
  - rewrite load_captions_missing by done. by intros [= <- <-].
Qed.

(** ** The invariant holds all along a session *)

Lemma init_inv w s0 s :
  init w s0 = (Ok (), s) →
  image (self s) = None ∧ original_image (self s) = None
  ∧ captions (self s) ≠ [] ∧ parameters (self s) = default_parameters
  ∧ store s = store s0.
Proof.
  unfold init. do 8 (erewrite bind_ok by reflexivity).
  set (s1 := with_self _ _).
  assert (∃ s2, (if negb (os_path_exists w (resource_path w (lit "impact.ttf")))
                 then message_box (lit "Warning")
                        (lit "Font file not found: "
                           ++ resource_path w (lit "impact.ttf")
                           ++ lit ". Using default font.");;
                      modify (with_font_path None)
                 else mret ()) s1 = (Ok (), s2)
                ∧ image (self s2) = None ∧ original_image (self s2) = None
                ∧ parameters (self s2) = default_parameters
                ∧ store s2 = store s0) as (s2 & E2 & Hi & Ho & Hp & Hs).
  { destruct (negb _); by eexists. }
  erewrite bind_ok by exact E2.
  destruct (load_captions w s2) as [[c|e] s3] eqn:Hl;
    [|by erewrite bind_raise by exact Hl].
  erewrite bind_ok by exact Hl.
  apply load_captions_returned in Hl as (Hc & Hf & Hs').
  do 2 (erewrite bind_ok by reflexivity).
  destruct (_ && _).
  - unfold try_except.
    destruct (tweepy_Client w) as [[]|e].
    + do 2 (erewrite bind_ok by reflexivity).
      destruct (tweepy_API w) as [[]|e].
      * do 2 (erewrite bind_ok by reflexivity).
        intros [= <-]; cbn; rewrite Hf, Hs'; by repeat split.
      * erewrite bind_raise by reflexivity.
        intros [= <-]; cbn; rewrite Hf, Hs'; by repeat split.
    + erewrite bind_raise by reflexivity.
      intros [= <-]; cbn; rewrite Hf, Hs'; by repeat split.
  - intros [= <-]; cbn; rewrite Hf, Hs'; by repeat split.
Qed.

Lemma consistent_grown s s' :
  self s' = self s → store s `prefix_of` store s' →
  consistent s → consistent s'.
Proof.
  unfold consistent. intros -> Hp.
  destruct (image (self s)), (original_image (self s)); try done.
  intros (Hne & base & img & Hb & Hr & Hrender). split; [done|].
  exists base, img. split_and!; [by eapply lookup_grown..|done].
Qed.

Lemma assigned_keeps e f :
  image (assigned e f) = image f
  ∧ original_image (assigned e f) = original_image f
  ∧ captions (assigned e f) = captions f.
Proof. by destruct e. Qed.

(** The events that keep the base image, when they return: the window
    ends as the event assigned it, up to the render. *)
Lemma handle_keeps w e s s' :
  inv s → keeps_base e = true →
  handle w e s = (Ok (), s') →
  erase (self s') = erase (assigned e (self s))
  ∧ store s `prefix_of` store s'
  ∧ inv s'.
Proof.
  intros [Hc Hcap] He.
  assert (Hb := consistent_based s Hc). assert (Hf := consistent_fonted s Hc).
  assert (Hadj : ∀ g : MyForm → MyForm,
             image (g (self s)) = image (self s) →
             original_image (g (self s)) = original_image (self s) →
             captions (g (self s)) = captions (self s) →
             (modify g;; f ← get;
              if image f is Some _ then update_canvas else mret ()) s
             = (Ok (), s') →
             erase (self s') = erase (g (self s))
             ∧ store s `prefix_of` store s'
             ∧ inv s').
  { intros g Hi Ho Hca Hrun.
    assert (Hbg : based (with_self g s)) by by apply based_with_self.
    assert (Hfg := adjust_returned g s s' Hbg Hrun).
    rewrite adjust_run in Hrun by done. injection Hrun as <-.
    destruct (adjust_rendered_from g s) as (E & P & _ & _).
    unfold inv; split_and!; [done..|by apply adjust_consistent|].
    rewrite (erased_captions _ _ E). cbn. by rewrite Hca. }
  destruct e; try done; cbn [handle assigned].
  - (* the save button *)
    intros (Hs & Hst & _)%save_image_frame; [|done].
    unfold inv. rewrite Hs, Hst. split_and!; try done.
    eapply consistent_grown; [done| |done]. by rewrite Hst.
  - (* the share button *)
    destruct (share_to_x_frame w result s Hc) as (s'' & -> & Hs & Hst & _).
    intros [= <-]. unfold inv. rewrite Hs. split_and!; try done.
    by eapply consistent_grown.
  - by apply Hadj.
  - by apply Hadj.
  - by apply Hadj.
  - by apply Hadj.
  - (* the top text *)
    rewrite topTextEdit_setText_run by done. intros [= <-].
    destruct (set_top_rendered_from text s) as (E & P & _ & _).
    unfold inv; split_and!; [done..|by apply set_top_consistent|].
    by rewrite (erased_captions _ _ E).
  - (* the bottom text *)
    rewrite bottomTextEdit_setText_run by done. intros [= <-].
    destruct (set_bottom_rendered_from text s) as (E & P & _ & _).
    unfold inv; split_and!; [done..|by apply set_bottom_consistent|].
    by rewrite (erased_captions _ _ E).
  - (* the splash *)
    intros [= <-]. by unfold inv.
Qed.

(** What [random_gacha] can do. *)
Lemma random_gacha_cases w s :
  captions (self s) ≠ [] →
  (∃ e, os_path_exists w (image_folder (self s)) = true
        ∧ os_listdir w (image_folder (self s)) = Raise e
        ∧ random_gacha w s = (Raise e, s))
  ∨ ∃ s', random_gacha w s = (Ok (), s')
    ∧ ((∃ text, s' = with_effect (MessageBox (lit "Warning") text) s)
       ∨ (∃ text, s' = with_effect (MessageBox (lit "Warning") text)
                         (with_self (with_image_files []) s))
       ∨ (∃ e names, s' = unloaded e (listed names s))
       ∨ (∃ e x, s' = unloaded e x ∧ carried s x)
       ∨ (∃ img caption g names font,
             caption ∈ captions (self s)
             ∧ canvas_font (self s) = Ok font
             ∧ s' = redraw (set_bottom []
                              (set_top caption
                                 (with_rng g (loaded img (listed names s))))))).
Proof.
  intros Hcap.
  destruct (os_path_exists w (image_folder (self s))) eqn:E;
    [|rewrite random_gacha_missing by done; right; eauto 10].
  destruct (os_listdir w (image_folder (self s))) as [names|e] eqn:El;
    [|left; exists e; split_and!; [done..|by apply random_gacha_unlisted]].
  right.
  destruct (image_files (self (listed names s))) as [|a l] eqn:Ef.
  { rewrite (random_gacha_empty w s names) by done. eauto 10. }
  destruct (random_choice_run (image_files (self (listed names s))) s)
    as (name & Hname & _); [by rewrite Ef|].
  destruct (Image_open w (os_path_join w (image_folder (self s)) name))
    as [img|e] eqn:Ho.
  - destruct (canvas_font (self s)) as [font|e] eqn:Hfont.
    + destruct (random_choice_run (captions (self s)) (listed names s))
        as (caption & Hc & _); [done|].
      rewrite (random_gacha_picked w s names name img caption font) by done.
      eexists. split; [done|]. do 4 right. do 5 eexists.
      split; [by eapply list_elem_of_lookup_2|]. split; [reflexivity|done].
    + destruct (random_gacha_unrendered w s names name img e)
        as (x & -> & Hx); [done..|].
      eexists. split; [done|]. do 3 right. left. by exists e, x.
  - rewrite (random_gacha_failed w s names name e) by done. eauto 10.
Qed.

Lemma rendered_from_picked caption s :
  rendered_from
    (with_self
       (with_ui (ui_with_bottom (bottom_kept (self s) [])
                 ∘ ui_with_top (top_kept (self s) caption))) s)
    (redraw (set_bottom [] (set_top caption s))).
Proof.
  eapply rendered_from_trans; [|apply rendered_from_redraw].
  eapply rendered_from_trans; [|apply set_bottom_rendered_from].
  destruct (set_top_rendered_from caption s) as (E & P & G & F).
  split_and!; [|done..]. cbn.
  assert (Hk : bottom_kept (self (set_top caption s)) []
               = bottom_kept (self s) []).
  { unfold bottom_kept.
    change (Qt.kept (bottomTextEdit_maxLength
                       (ui (erase (self (set_top caption s))))) []
            = Qt.kept (bottomTextEdit_maxLength (ui (self s))) []).
    by rewrite E. }
  rewrite Hk.
  change (erase (with_ui (ui_with_bottom (bottom_kept (self s) []))
                   (self (set_top caption s)))
          = erase (with_ui (ui_with_bottom (bottom_kept (self s) []))
                     (with_ui (ui_with_top (top_kept (self s) caption))
                        (self s)))).
  revert E. generalize (self (set_top caption s)).
  intros f E.
  assert (Hw : ∀ t f', erase (with_ui (ui_with_bottom t) f')
                       = with_ui (ui_with_bottom t) (erase f')) by done.
  rewrite !Hw. by rewrite E.
Qed.

Lemma picked_caption_text caption s :
  caption_text (self (redraw (set_bottom [] (set_top caption s))))
  = (top_kept (self s) caption, []).
Proof.
  destruct (rendered_from_picked caption s) as (Er & _).
  rewrite (erased_caption_text _ _ Er). unfold caption_text. cbn.
  unfold bottom_kept. by rewrite kept_nil.
Qed.

Lemma picked_text caption g names img s :
  let x := with_rng g (loaded img (listed names s)) in
  let s' := redraw (set_bottom [] (set_top caption x)) in
  topTextEdit (ui (self s'))
  = Qt.kept (topTextEdit_maxLength (ui (self s))) caption
  ∧ bottomTextEdit (ui (self s')) = [].
Proof.
  intros x s'. pose proof (picked_caption_text caption x) as Er.
  unfold caption_text in Er. fold s' in Er.
  change (top_kept (self x) caption)
    with (Qt.kept (topTextEdit_maxLength (ui (self s))) caption) in Er.
  by apply pair_equal_spec in Er.
Qed.

Lemma handle_inv w e s s' :
  inv s → handle w e s = (Ok (), s') → inv s'.
Proof.
  intros Hinv. destruct (keeps_base e) eqn:He.
  { intros Hrun. by destruct (handle_keeps w e s s' Hinv He Hrun) as (_ & _ & ?). }
  destruct Hinv as [Hc Hcap].
  assert (Hb := consistent_based s Hc). assert (Hf := consistent_fonted s Hc).
  destruct e; try done; cbn [handle].
  - (* the load button *)
    rewrite load_image_run. intros [= <-].
    destruct file_name; [done|]. destruct (Image_open _ _) as [img|]; [|done].
    destruct (canvas_font (self s)) as [font|] eqn:Hfont; [|done].
    split; [apply redraw_consistent; [apply based_loaded|by eapply fonted_loaded]|].
    destruct (rendered_from_redraw (loaded img s)) as (E & _).
    by rewrite (erased_captions _ _ E).
  - (* the template button *)
    destruct (random_gacha_cases w s Hcap)
      as [(x & _ & _ & ->)|(s'' & -> & Hcase)]; [done|].
    intros [= <-].
    destruct Hcase
      as [[t ->]|[[t ->]|[(x & names & ->)|[(x & y & -> & Hy)
          |(img & c & g & names & font & _ & Hfont & ->)]]]];
      [done..| |].
    { destruct Hy as (Hs & _). unfold inv, consistent. cbn. split; [done|].
      unfold settled in Hs. by injection Hs as _ _ -> _ _ _ _. }
    set (s1 := with_rng g (loaded img (listed names s))).
    assert (Hb1 : based s1) by apply (based_loaded img (listed names s)).
    assert (Hf1 : fonted s1) by (right; by exists font).
    split.
    + apply redraw_consistent.
      * by apply set_bottom_based, set_top_based.
      * by apply set_bottom_fonted, set_top_fonted.
    + destruct (rendered_from_picked c s1) as (E1 & _).
      by rewrite (erased_captions _ _ E1).
  - (* the clear button *)
    rewrite clear_canvas_run by done. intros [= <-].
    split; [done|]. cbn.
    destruct (set_bottom_rendered_from [] (set_top [] s)) as (E2 & _).
    destruct (set_top_rendered_from [] s) as (E3 & _).
    apply erased_captions in E2, E3. cbn in E2, E3. congruence.
Qed.

Lemma reachable_inv s : reachable s → inv s.
Proof.
  induction 1 as [w u g s Hi|w e s s' _ IH He].
  - apply init_inv in Hi as (Hi & Ho & Hc & _).
    split; [|done]. unfold consistent. by rewrite Hi, Ho.
  - by eapply handle_inv.
Qed.

(** ** Frames of the next-state functions *)

Lemma based_of_base s base :
  image (self s) ≠ None → base_image s = Some base → based s.
Proof.
  unfold based, base_image, pixels_of.
  by destruct (image (self s)), (original_image (self s)).
Qed.

Lemma rendered_shown img s : rendered_image (shown img s) = Some img.
Proof. unfold rendered_image, shown. cbn. apply lookup_last. Qed.

Lemma redraw_of_base s base img :
  image (self s) ≠ None → base_image s = Some base →
  render_of (self s) base = Ok img →
  redraw s = shown img s.
Proof.
  unfold redraw. intros Hi -> ->. by destruct (image (self s)).
Qed.

Lemma assigned_original_image e f :
  original_image (assigned e f) = original_image f.
Proof. by destruct e. Qed.

Lemma consistent_image s base :
  consistent s → base_image s = Some base → image (self s) ≠ None.
Proof.
  unfold consistent, base_image, pixels_of.
  by destruct (image (self s)), (original_image (self s)).
Qed.

Lemma run_keeps steps : ∀ s s' base,
  inv s → base_image s = Some base →
  Forall (λ we : World * event, keeps_base we.2 = true) steps →
  run steps s = (Ok (), s') →
  inv s'
  ∧ original_image (self s') = original_image (self s)
  ∧ base_image s' = Some base.
Proof.
  induction steps as [|[w e] steps IH]; intros s s' base Hinv Hb Hk.
  - by intros [= <-].
  - apply Forall_cons in Hk as [He Hk]. cbn in He. cbn [run].
    destruct (handle w e s) as [[[]|x] s1] eqn:Hrun;
      [|by erewrite bind_raise by exact Hrun].
    erewrite bind_ok by exact Hrun. intros Hrest.
    destruct (handle_keeps w e s s1 Hinv He Hrun) as (E & P & Hinv1).
    assert (Ho : original_image (self s1) = original_image (self s)).
    { rewrite (erased_original_image _ _ E). apply assigned_original_image. }
    assert (Hb1 : base_image s1 = Some base).
    { revert Hb. unfold base_image, pixels_of. rewrite Ho.
      destruct (original_image (self s)); [|done]. cbn.
      by apply lookup_grown. }
    destruct (IH s1 s' base Hinv1 Hb1 Hk Hrest) as (? & ? & ?).
    split_and!; [done|congruence|done].
Qed.

(** ** Facts on strings *)






Lemma endswith_spec (s suffix : str) :
  Py.endswith s suffix = true ↔ ∃ stem, s = stem ++ suffix.
Proof.
  unfold Py.endswith. rewrite bool_decide_eq_true. split.
  - intros E. exists (take (length s - length suffix) s).
    rewrite <- E at 2. by rewrite take_drop.
  - intros [stem ->]. rewrite length_app.
    replace (length stem + length suffix - length suffix)%nat
      with (length stem) by lia.
    by rewrite drop_app_length.
Qed.

Lemma first_columns_nil rows :
  first_columns rows = [] ↔ Forall (λ row, row = []) rows.
Proof.
  unfold first_columns. induction rows as [|[|c row] rows IH]; cbn.
  - by split.
  - rewrite IH. split; [by constructor|]. by inversion 1.
  - split; [done|]. by inversion 1.
Qed.

(** The comprehension: the first field of every row that is not empty,
    in the order of the rows. *)
Lemma first_columns_filter rows :
  first_columns rows
  = hd [] <$> List.filter (λ row, negb (bool_decide (row = []))) rows.
Proof.
  unfold first_columns. induction rows as [|[|c row] rows IH]; cbn;
    [done..|]. by rewrite IH.
Qed.


(** ** What the next-state functions leave of the text and parameters *)

Lemma redraw_erase s : erase (self (redraw s)) = erase (self s).
Proof. by destruct (rendered_from_redraw s). Qed.



Lemma run_reachable steps : ∀ s s',
  reachable s → run steps s = (Ok (), s') → reachable s'.
Proof.
  induction steps as [|[w e] steps IH]; intros s s' Hr; cbn [run].
  - by intros [= <-].
  - destruct (handle w e s) as [[[]|x] s1] eqn:He.
    + erewrite bind_ok by exact He. apply IH. by eapply reachable_step.
    + by erewrite bind_raise by exact He.
Qed.


(** ** A slot that raises *)

(** An exception leaves a slot only from a move of the font size whose
    font does not load, from a save, or from the listing of the folder;
    the window is then as the event assigned it, and no object is
    changed. *)
Lemma handle_raised w e s x s' :
  inv s →
  handle w e s = (Raise x, s') →
  self s' = assigned e (self s)
  ∧ store s `prefix_of` store s'
  ∧ tweets (effects s') = tweets (effects s)
  ∧ (e = SaveClicked ∨ e = TemplateClicked ∨ ∃ value, e = FontSizeMoved value).
Proof.
  intros [Hc Hcap].
  assert (Hb := consistent_based s Hc). assert (Hf := consistent_fonted s Hc).
  assert (Hadj : ∀ g : MyForm → MyForm,
             image (g (self s)) = image (self s) →
             original_image (g (self s)) = original_image (self s) →
             (modify g;; f ← get;
              if image f is Some _ then update_canvas else mret ()) s
             = (Raise x, s') →
             self s' = g (self s)
             ∧ store s `prefix_of` store s'
             ∧ tweets (effects s') = tweets (effects s)).
  { intros g Hi Ho Hrun.
    assert (Hbg : based (with_self g s)) by by apply based_with_self.
    destruct (image (g (self s))) as [r|] eqn:Er.
    - destruct (canvas_font (g (self s))) as [font|y] eqn:Hfont.
      + rewrite adjust_run in Hrun; [done|done|]. right. by exists font.
      + revert Hbg. unfold based. cbn. rewrite Er.
        destruct (original_image (g (self s))) as [ro|] eqn:Ero; [|done].
        intros [base Hbase].
        rewrite (adjust_raise g s base y) in Hrun;
          [|by rewrite Er|unfold base_image, pixels_of; cbn; by rewrite Ero
           |done].
        injection Hrun as _ <-. split_and!; try done. cbn.
        by apply prefix_app_r.
    - rewrite adjust_run in Hrun; [done|done|]. left. done. }
  assert (Hkeep : ∀ g : MyForm → MyForm,
             image (g (self s)) = image (self s) →
             original_image (g (self s)) = original_image (self s) →
             canvas_font (g (self s)) = canvas_font (self s) →
             (modify g;; f ← get;
              if image f is Some _ then update_canvas else mret ()) s
             ≠ (Raise x, s')).
  { intros g Hi Ho Hfont. rewrite adjust_run; [done| |].
    - by apply based_with_self.
    - by apply fonted_with_self. }
  destruct e; cbn [handle assigned].
  - by rewrite load_image_run.
  - destruct (random_gacha_cases w s Hcap)
      as [(y & _ & _ & ->)|(s'' & -> & _)]; [|done].
    intros [= <- <-]. split_and!; try done. by right; left.
  - intros (Hs & Hst & Ht)%save_image_frame; [|done].
    rewrite Hst. split_and!; try done. by left.
  - by rewrite clear_canvas_run.
  - by destruct (share_to_x_frame w result s Hc) as (s'' & -> & _).
  - intros Hrun. destruct (Hadj (with_font_size value)) as (? & ? & ?);
      [done..|]. split_and!; try done. right; right. by exists value.
  - intros Hrun. by destruct (Hkeep (with_padding value)).
  - intros Hrun. by destruct (Hkeep (with_top_left_margin value)).
  - intros Hrun. by destruct (Hkeep (with_bottom_padding value)).
  - by rewrite topTextEdit_setText_run.
  - by rewrite bottomTextEdit_setText_run.
  - done.
Qed.

(** ** The claims *)

(** C1.  A render with a bottom caption, when the font of the render
    loads, draws the caption at the left margin and at the height
    [imageHeight - textHeight - bottomPadding], where [textHeight] is the
    height of the bounding box of the caption in that font; when that
    height is negative it is drawn at [max 10 (imageHeight - textHeight)]
    instead. *)
Theorem bottom_text_position s base font :
  image (self s) ≠ None →
  base_image s = Some base →
  bottomTextEdit (ui (self s)) ≠ [] →
  canvas_font (self s) = Ok font →
  let f := self s in
  let bottom := bottomTextEdit (ui f) in
  let imageHeight := Image_height base in
  let textHeight :=
    (ImageDraw_textbbox (0, 0) bottom font).2
    - (ImageDraw_textbbox (0, 0) bottom font).1.1.2 in
  let bottomPadding := current_bottom_padding f in
  ∃ s' y,
    update_canvas s = (Ok (), s')
    ∧ rendered_image s'
      = Some (ImageDraw_text (current_top_left_margin f, y) bottom font
                (render_top font (topTextEdit (ui f)) (parameters f) base))
    ∧ (0 ≤ imageHeight - textHeight - bottomPadding →
       y = imageHeight - textHeight - bottomPadding)
    ∧ (imageHeight - textHeight - bottomPadding < 0 →
       y = Z.max 10 (imageHeight - textHeight)).
Proof.
  intros Hi Hb Hne Hfont f bottom imageHeight textHeight bottomPadding.
  exists (redraw s), (y_position imageHeight textHeight bottomPadding).
  split.
  { apply update_canvas_redraw; [by eapply based_of_base|].
    right. by exists font. }
  split.
  - rewrite (redraw_of_base s base _ Hi Hb (render_of_ok _ base font Hfont)).
    rewrite rendered_shown.
    unfold render_with, render_bottom. fold f bottom.
    destruct bottom as [|c t] eqn:E; [done|].
    do 3 f_equal. unfold text_height, textHeight.
    by destruct (ImageDraw_textbbox _ _ _) as [[[? ?] ?] ?].
  - unfold y_position. split; intros Hy.
    + destruct (Z.ltb_spec (imageHeight - textHeight - bottomPadding) 0);
        [lia|done].
    + destruct (Z.ltb_spec (imageHeight - textHeight - bottomPadding) 0);
        [done|lia].
Qed.

(** C2.  From any machine of a session that holds a base image, and
    after any run of events other than loading, random selection and
    clearing (slider moves, text edits, saves, shares) that returned, the
    base image is the same object with the same pixels, and the current
    image is a different object that holds exactly [render] of those
    pixels under the caption text and parameters of the moment: every
    render starts from the base image, none from an earlier render.  When
    the next such event raises (the font does not load at a new size, a
    save fails), the base image and the current image are left as that
    run left them. *)
Theorem render_from_pristine_base s steps base s' :
  reachable s →
  base_image s = Some base →
  Forall (λ we : World * event, keeps_base we.2 = true) steps →
  run steps s = (Ok (), s') →
  original_image (self s') = original_image (self s)
  ∧ base_image s' = Some base
  ∧ image (self s') ≠ original_image (self s')
  ∧ (∃ img,
       rendered_image s' = Some img
       ∧ render (font_path (self s')) base
           (topTextEdit (ui (self s'))) (bottomTextEdit (ui (self s')))
           (parameters (self s')) = Ok img)
  ∧ ∀ w e x s'',
      keeps_base e = true →
      handle w e s' = (Raise x, s'') →
      original_image (self s'') = original_image (self s')
      ∧ base_image s'' = Some base
      ∧ image (self s'') = image (self s')
      ∧ rendered_image s'' = rendered_image s'.
Proof.
  intros Hr Hb Hk Hrun. apply reachable_inv in Hr.
  destruct (run_keeps steps s s' base Hr Hb Hk Hrun) as (Hinv & Ho & Hb').
  assert (Hc := proj1 Hinv). assert (Hi := consistent_image s' base Hc Hb').
  destruct (consistent_rendered s' base Hc Hb' Hi) as (img & Himg & Hren & Hne).
  split_and!; [done..|by exists img|].
  intros w e x s'' He Hraise.
  destruct (handle_raised w e s' x s'' Hinv Hraise) as (Hs & Hp & _).
  destruct (assigned_keeps e (self s')) as (Ei & Eo & _).
  rewrite <- Hs in Ei, Eo.
  assert (Hbs : base_image s'' = Some base).
  { revert Hb'. unfold base_image, pixels_of. rewrite Eo.
    destruct (original_image (self s')); [|done]. cbn.
    by apply lookup_grown. }
  assert (Hrs : rendered_image s'' = Some img).
  { revert Himg. unfold rendered_image, pixels_of. rewrite Ei.
    destruct (image (self s')); [|done]. cbn. by apply lookup_grown. }
  split_and!; [done..|congruence].
Qed.

(** C3.  Two renders from machines that agree on the pixels of the base
    image, on the caption text, on the render parameters and on the font
    file of the session, a font that loads at the size of the parameters,
    give the same pixels, whatever else differs between the machines. *)
Theorem render_deterministic s1 s2 base font :
  image (self s1) ≠ None → image (self s2) ≠ None →
  base_image s1 = Some base → base_image s2 = Some base →
  caption_text (self s1) = caption_text (self s2) →
  parameters (self s1) = parameters (self s2) →
  font_path (self s1) = font_path (self s2) →
  render_font (font_path (self s1)) (parameters (self s1)) = Ok font →
  ∃ s1' s2' img,
    update_canvas s1 = (Ok (), s1')
    ∧ update_canvas s2 = (Ok (), s2')
    ∧ rendered_image s1' = Some img
    ∧ rendered_image s2' = Some img.
Proof.
  intros Hi1 Hi2 Hb1 Hb2 Ht Hp Hf Hfont.
  assert (Hf1 : canvas_font (self s1) = Ok font) by done.
  assert (Hf2 : canvas_font (self s2) = Ok font).
  { rewrite canvas_font_eq. by rewrite <- Hp, <- Hf. }
  exists (redraw s1), (redraw s2). eexists.
  split.
  { apply update_canvas_redraw; [by eapply based_of_base|].
    right. by exists font. }
  split.
  { apply update_canvas_redraw; [by eapply based_of_base|].
    right. by exists font. }
  rewrite (redraw_of_base s1 base _ Hi1 Hb1 (render_of_ok _ base font Hf1)).
  rewrite (redraw_of_base s2 base _ Hi2 Hb2 (render_of_ok _ base font Hf2)).
  rewrite !rendered_shown. split; [done|].
  injection Ht as -> ->. by rewrite Hp.
Qed.


(** C5, amended.  When the picture an event asks for does not open, the
    event shows one message box titled Error and leaves no image at all:
    the current image and the base image are both set to [None].  The
    caption text, the render parameters, the caption catalog, the pixmap on
    the canvas and the image objects stay as they were. *)
Theorem load_failure_resets w ev e s :
  open_fails w s ev e →
  ∃ s',
    handle w ev s = (Ok (), s')
    ∧ effects s'
      = effects s
        ++ [MessageBox (lit "Error")
              (lit "Failed to load image: " ++ exn_str e)]
    ∧ image (self s') = None
    ∧ original_image (self s') = None
    ∧ base_image s' = None
    ∧ rendered_image s' = None
    ∧ caption_text (self s') = caption_text (self s)
    ∧ parameters (self s') = parameters (self s)
    ∧ captions (self s') = captions (self s)
    ∧ imageCanvas (ui (self s')) = imageCanvas (ui (self s))
    ∧ store s' = store s.
Proof.
  destruct ev; try done; cbn [open_fails handle].
  - intros [Hne Ho]. rewrite load_image_run. destruct file_name; [done|].
    rewrite Ho. by eexists.
  - intros (E & names & name & El & Hname & Ho).
    rewrite (random_gacha_failed w s names name e) by done. by eexists.
Qed.

(** C6.  Random selection.  Without the folder it shows a message box
    titled Warning and changes nothing.  With the folder listed and no
    file whose name ends in [.jpg] or [.png], in these very letters, it
    shows a message box titled Warning and changes nothing but its own
    listing of the folder, which is empty: images, text, parameters,
    catalog and generator are as before.  Otherwise it draws twice from the
    generator, first an index into the matching files, then an index into
    the caption catalog, and when the file drawn opens and the font of the
    render loads, that picture is the base image, the top field holds what
    it keeps of the caption drawn, and the generator has advanced by these
    two draws. *)
Theorem random_gacha_contract w s :
  let folder := image_folder (self s) in
  (os_path_exists w folder = false →
   ∃ text,
     random_gacha w s
     = (Ok (), with_effect (MessageBox (lit "Warning") text) s))
  ∧ (∀ names,
       os_path_exists w folder = true →
       os_listdir w folder = Ok names →
       List.filter is_image_file names = [] →
       ∃ text s',
         random_gacha w s = (Ok (), s')
         ∧ effects s' = effects s ++ [MessageBox (lit "Warning") text]
         ∧ self s' = with_image_files [] (self s)
         ∧ store s' = store s ∧ rng s' = rng s
         ∧ base_image s' = base_image s
         ∧ rendered_image s' = rendered_image s)
  ∧ (∀ names,
       let files := List.filter is_image_file names in
       os_path_exists w folder = true →
       os_listdir w folder = Ok names →
       files ≠ [] →
       captions (self s) ≠ [] →
       let draw1 := randbelow (length files) (rng s) in
       let draw2 := randbelow (length (captions (self s))) draw1.2 in
       ∃ name caption,
         files !! draw1.1 = Some name
         ∧ captions (self s) !! draw2.1 = Some caption
         ∧ ∀ img font,
             Image_open w (os_path_join w folder name) = Ok img →
             canvas_font (self s) = Ok font →
             ∃ s',
               random_gacha w s = (Ok (), s')
               ∧ base_image s' = Some img
               ∧ topTextEdit (ui (self s'))
                 = Qt.kept (topTextEdit_maxLength (ui (self s))) caption
               ∧ rng s' = draw2.2)
  ∧ (∀ file : str,
       is_image_file file = true
       ↔ ∃ stem, file = stem ++ lit ".jpg" ∨ file = stem ++ lit ".png").
Proof.
  intros folder. split_and!.
  - intros E. eexists. by apply random_gacha_missing.
  - intros names E El Ef. do 2 eexists.
    by rewrite (random_gacha_empty w s names).
  - intros names files E El Ef Hcap draw1 draw2.
    destruct (random_choice_run files s) as (name & Hname & _); [done|].
    destruct (random_choice_run (captions (self s)) (listed names s))
      as (caption & Hc & _); [done|].
    exists name, caption. split_and!; [done..|]. intros img font Ho Hfont.
    rewrite (random_gacha_picked w s names name img caption font) by done.
    eexists. split; [done|].
    set (s1 := with_rng _ (loaded img (listed names s))).
    pose proof (rendered_from_picked caption s1) as Hr.
    split_and!.
    + eapply rendered_from_base; [exact Hr|].
      apply (base_image_loaded img (listed names s)).
    + exact (proj1 (picked_text caption _ names img s)).
    + by destruct Hr as (_ & _ & -> & _).
  - intros file. unfold is_image_file, Py.endswith_any. cbn [existsb].
    rewrite orb_false_r, orb_true_iff, !endswith_spec.
    split; [intros [[stem ->]|[stem ->]]|intros [stem [->| ->]]]; eauto.
Qed.

(** C7, amended.  From a captions file that is there and has a row with
    a field, [load_captions] returns, in the order of the rows, the first
    field of every row that is not empty, be that field empty or not; it
    shows no message and changes nothing. *)
Theorem load_captions_first_columns w s rows :
  let path := resource_path w (lit "captions.csv") in
  os_path_exists w path = true →
  csv_rows w path = Ok rows →
  ¬ Forall (λ row, row = []) rows →
  load_captions w s
  = (Ok (hd [] <$> List.filter (λ row, negb (bool_decide (row = []))) rows),
     s).
Proof.
  intros path E Er Hrows. rewrite (load_captions_rows w s rows) by done.
  rewrite <- first_columns_filter. rewrite <- first_columns_nil in Hrows.
  by destruct (first_columns rows).
Qed.



(** C10.  A random selection whose picture opens and is rendered sets the
    top caption to what the field keeps of the catalog caption it drew,
    which is that caption when it is within the [maxLength] of the field,
    and the bottom caption to the empty string, whatever the two fields
    held before. *)
Theorem random_gacha_sets_captions w s names name img font :
  let folder := image_folder (self s) in
  let files := List.filter is_image_file names in
  let draw1 := randbelow (length files) (rng s) in
  let draw2 := randbelow (length (captions (self s))) draw1.2 in
  captions (self s) ≠ [] →
  os_path_exists w folder = true →
  os_listdir w folder = Ok names →
  files !! draw1.1 = Some name →
  Image_open w (os_path_join w folder name) = Ok img →
  canvas_font (self s) = Ok font →
  ∃ s' caption,
    random_gacha w s = (Ok (), s')
    ∧ captions (self s) !! draw2.1 = Some caption
    ∧ topTextEdit (ui (self s'))
      = Qt.kept (topTextEdit_maxLength (ui (self s))) caption
    ∧ (Qt.fits (topTextEdit_maxLength (ui (self s))) caption = true →
       topTextEdit (ui (self s')) = caption)
    ∧ bottomTextEdit (ui (self s')) = [].
Proof.
  intros folder files draw1 draw2 Hcap E El Hname Ho Hfont.
  destruct (random_choice_run (captions (self s)) (listed names s))
    as (caption & Hc & _); [done|].
  rewrite (random_gacha_picked w s names name img caption font) by done.
  eexists _, caption. split; [done|]. split; [done|].
  destruct (picked_text caption
              (randbelow (length (captions (self s)))
                 (rng (listed names s))).2 names img s) as [Htop Hbottom].
  split_and!; [exact Htop| |exact Hbottom].
  intros Hfits. etrans; [exact Htop|]. by apply kept_fits.
Qed.

End Proofs.

(** * Examples on the small implementation *)

(** A machine of [Toy.after] is one of a session when no step raised. *)
Lemma reachable_after w steps g s :
  init w (Toy.boot g) = (Ok (), s) →
  (run steps s).1 = Ok () →
  reachable (Toy.after w steps g).
Proof.
  intros Hi Hr. unfold Toy.after. rewrite Hi. cbn [snd].
  apply (run_reachable steps s); [by eapply reachable_init|].
  destruct (run steps s) as [o s']. cbn in Hr. by subst.
Qed.

(** The scenario of the specification: a picture of 400 by 300, a
    bounding box 60 high, a bottom padding of 20. *)
Lemma bottom_text_position_witness :
  image (self Toy.epic) ≠ None
  ∧ base_image Toy.epic = Some Toy.picture
  ∧ bottomTextEdit (ui (self Toy.epic)) ≠ []
  ∧ canvas_font (self Toy.epic) = Ok (75 : @Font Toy.pillow)
  ∧ ∃ s' y,
      update_canvas Toy.epic = (Ok (), s')
      ∧ rendered_image s'
        = Some {| Toy.size := (400, 300);
                  Toy.drawn := [((10, y), lit "EPIC FAIL!", 75)] |}
      ∧ y = 300 - 60 - 20.
Proof.
  assert (Hi : image (self Toy.epic) ≠ None) by (vm_compute; discriminate).
  assert (Hb : base_image Toy.epic = Some Toy.picture)
    by (vm_compute; reflexivity).
  assert (Ht : bottomTextEdit (ui (self Toy.epic)) ≠ [])
    by (vm_compute; discriminate).
  assert (Hf : canvas_font (self Toy.epic) = Ok (75 : @Font Toy.pillow))
    by (vm_compute; reflexivity).
  split_and!; [exact Hi|exact Hb|exact Ht|exact Hf|].
  destruct (bottom_text_position Toy.epic Toy.picture 75 Hi Hb Ht Hf)
    as (s' & y & Hrun & Himg & Hge & _).
  exists s', y. split_and!; [exact Hrun|exact Himg|].
  apply Hge. vm_compute. discriminate.
Defined.

(** The other scenario: with a bottom padding of 280 the text goes to
    [max 10 (300 - 60)]. *)
Example bottom_text_clamped :
  rendered_image
    (handle Toy.studio (BottomPaddingMoved 280) Toy.epic).2
  = Some {| Toy.size := (400, 300);
            Toy.drawn := [((10, 240), lit "EPIC FAIL!", 75)] |}.
Proof. vm_compute. reflexivity. Qed.

Lemma render_from_pristine_base_witness :
  reachable Toy.opened
  ∧ base_image Toy.opened = Some Toy.picture
  ∧ ∃ s',
      run [(Toy.studio, BottomTextTyped (lit "EPIC FAIL!"));
           (Toy.studio, FontSizeMoved 40);
           (Toy.bare_world, SaveClicked);
           (Toy.studio, BottomPaddingMoved 5);
           (Toy.studio, ShareClicked true)] Toy.opened = (Ok (), s')
      ∧ base_image s' = Some Toy.picture
      ∧ (∃ img,
           rendered_image s' = Some img
           ∧ render (font_path (self s')) Toy.picture
               (topTextEdit (ui (self s')))
               (bottomTextEdit (ui (self s')))
               (parameters (self s')) = Ok img)
      ∧ ∀ x s'',
          handle Toy.studio (FontSizeMoved 0) s' = (Raise x, s'') →
          base_image s'' = Some Toy.picture
          ∧ rendered_image s'' = rendered_image s'.
Proof.
  assert (Hr : reachable Toy.opened).
  { eapply reachable_after; [vm_compute; reflexivity|vm_compute; reflexivity]. }
  assert (Hb : base_image Toy.opened = Some Toy.picture)
    by (vm_compute; reflexivity).
  set (steps := [(Toy.studio, BottomTextTyped (lit "EPIC FAIL!"));
                 (Toy.studio, FontSizeMoved 40);
                 (Toy.bare_world, SaveClicked);
                 (Toy.studio, BottomPaddingMoved 5);
                 (Toy.studio, ShareClicked true)]).
  assert (Hrun : run steps Toy.opened = (Ok (), (run steps Toy.opened).2))
    by (vm_compute; reflexivity).
  assert (Hk : Forall (λ we : World * event, keeps_base we.2 = true) steps)
    by (repeat constructor).
  split; [exact Hr|]. split; [exact Hb|].
  destruct (render_from_pristine_base Toy.opened steps Toy.picture _
              Hr Hb Hk Hrun) as (_ & Hb' & _ & Himg & Hraise).
  exists (run steps Toy.opened).2.
  split; [exact Hrun|]. split; [exact Hb'|]. split; [exact Himg|].
  intros x s'' Hx.
  destruct (Hraise Toy.studio (FontSizeMoved 0) x s'' eq_refl Hx)
    as (_ & H1 & _ & H2).
  split; [exact H1|exact H2].
Defined.

(** The font size moved to 0 over a picture: the slot raises, and the
    picture keeps the text as it was drawn at 75. *)
Example font_size_zero_raises :
  (handle Toy.studio (FontSizeMoved 0) Toy.epic).1
  = Raise (Exn ValueError (lit "font size must be greater than 0"))
  ∧ current_font_size (self (handle Toy.studio (FontSizeMoved 0) Toy.epic).2)
    = 0
  ∧ rendered_image (handle Toy.studio (FontSizeMoved 0) Toy.epic).2
    = Some {| Toy.size := (400, 300);
              Toy.drawn := [((10, 220), lit "EPIC FAIL!", 75)] |}.
Proof. vm_compute. by split_and!. Qed.

Lemma render_deterministic_witness :
  image (self Toy.epic) ≠ None ∧ image (self Toy.epic') ≠ None
  ∧ base_image Toy.epic = Some Toy.picture
  ∧ base_image Toy.epic' = Some Toy.picture
  ∧ caption_text (self Toy.epic) = caption_text (self Toy.epic')
  ∧ parameters (self Toy.epic) = parameters (self Toy.epic')
  ∧ font_path (self Toy.epic) = font_path (self Toy.epic')
  ∧ render_font (font_path (self Toy.epic)) (parameters (self Toy.epic))
    = Ok (75 : @Font Toy.pillow)
  ∧ store Toy.epic ≠ store Toy.epic'
  ∧ ∃ s1' s2' img,
      update_canvas Toy.epic = (Ok (), s1')
      ∧ update_canvas Toy.epic' = (Ok (), s2')
      ∧ rendered_image s1' = Some img
      ∧ rendered_image s2' = Some img.
Proof.
  split_and!; try (vm_compute; (reflexivity || discriminate)).
  apply (render_deterministic Toy.epic Toy.epic' Toy.picture 75);
    vm_compute; (reflexivity || discriminate).
Defined.


(** A file whose rows are all blank gives the fallback too. *)
Example load_captions_blank_file :
  (load_captions (Toy.world (Ok [[]; []])) (Toy.boot 0)).1
  = Ok default_captions.
Proof. vm_compute. reflexivity. Qed.

(** C5 as stated fails: after a picture that does not open, the base
    image and the current image of before are gone. *)
Lemma load_failure_counterexample :
  Image_open Toy.studio (lit "images/broken.png")
  = Raise (Exn OSError (lit "cannot identify image file"))
  ∧ base_image Toy.epic = Some Toy.picture
  ∧ rendered_image Toy.epic
    = Some {| Toy.size := (400, 300);
              Toy.drawn := [((10, 220), lit "EPIC FAIL!", 75)] |}
  ∧ (handle Toy.studio (LoadClicked (lit "images/broken.png")) Toy.epic).1
    = Ok ()
  ∧ base_image
      (handle Toy.studio (LoadClicked (lit "images/broken.png")) Toy.epic).2
    = None
  ∧ rendered_image
      (handle Toy.studio (LoadClicked (lit "images/broken.png")) Toy.epic).2
    = None
  ∧ base_image
      (handle Toy.studio (LoadClicked (lit "images/broken.png")) Toy.epic).2
    ≠ base_image Toy.epic.
Proof. vm_compute. by split_and!. Qed.

Lemma load_failure_resets_witness :
  open_fails Toy.studio Toy.epic (LoadClicked (lit "images/broken.png"))
    (Exn OSError (lit "cannot identify image file"))
  ∧ ∃ s',
      handle Toy.studio (LoadClicked (lit "images/broken.png")) Toy.epic
      = (Ok (), s')
      ∧ image (self s') = None
      ∧ original_image (self s') = None
      ∧ caption_text (self s') = ([], lit "EPIC FAIL!")
      ∧ parameters (self s') = default_parameters.
Proof.
  assert (Hf : open_fails Toy.studio Toy.epic
                 (LoadClicked (lit "images/broken.png"))
                 (Exn OSError (lit "cannot identify image file")))
    by (split; [discriminate|reflexivity]).
  split; [exact Hf|].
  destruct (load_failure_resets _ _ _ _ Hf)
    as (s' & Hrun & _ & Hi & Ho & _ & _ & Ht & Hp & _).
  exists s'. split_and!; [exact Hrun|exact Hi|exact Ho| |].
  - rewrite Ht. vm_compute. reflexivity.
  - rewrite Hp. vm_compute. reflexivity.
Defined.

Lemma random_gacha_contract_witness :
  os_path_exists Toy.bare_world (image_folder (self Toy.epic)) = false
  ∧ base_image Toy.epic = Some Toy.picture
  ∧ (∃ text,
       random_gacha Toy.bare_world Toy.epic
       = (Ok (), with_effect (MessageBox (lit "Warning") text) Toy.epic))
  ∧ ∃ s',
      random_gacha Toy.studio (Toy.reseed 1 Toy.epic) = (Ok (), s')
      ∧ base_image s' = Some Toy.picture
      ∧ topTextEdit (ui (self s')) = lit "SUCH WOW"
      ∧ rng s' = 3%nat.
Proof.
  split; [reflexivity|]. split; [vm_compute; reflexivity|]. split.
  { destruct (random_gacha_contract Toy.bare_world Toy.epic)
      as (Hmissing & _).
    apply Hmissing. reflexivity. }
  set (s := Toy.reseed 1 Toy.epic).
  assert (Hdir : os_path_exists Toy.studio (image_folder (self s)) = true)
    by (vm_compute; reflexivity).
  assert (Hlist : os_listdir Toy.studio (image_folder (self s))
                  = Ok Toy.names) by (vm_compute; reflexivity).
  assert (Hfiles : List.filter is_image_file Toy.names ≠ [])
    by (vm_compute; discriminate).
  assert (Hcap : captions (self s) ≠ []) by (vm_compute; discriminate).
  assert (Hn : List.filter is_image_file Toy.names
                 !! (randbelow (length (List.filter is_image_file Toy.names))
                       (rng s)).1
               = Some (lit "cat.jpg")) by (vm_compute; reflexivity).
  assert (Hc : captions (self s)
                 !! (randbelow (length (captions (self s)))
                       (randbelow
                          (length (List.filter is_image_file Toy.names))
                          (rng s)).2).1
               = Some (lit "SUCH WOW")) by (vm_compute; reflexivity).
  assert (Ho : Image_open Toy.studio
                 (os_path_join Toy.studio (image_folder (self s))
                    (lit "cat.jpg"))
               = Ok Toy.picture) by (vm_compute; reflexivity).
  assert (Hf : canvas_font (self s) = Ok (75 : @Font Toy.pillow))
    by (vm_compute; reflexivity).
  assert (Hk : Qt.kept (topTextEdit_maxLength (ui (self s))) (lit "SUCH WOW")
               = lit "SUCH WOW") by (vm_compute; reflexivity).
  assert (Hg : (randbelow (length (captions (self s)))
                  (randbelow (length (List.filter is_image_file Toy.names))
                     (rng s)).2).2 = 3%nat) by (vm_compute; reflexivity).
  destruct (random_gacha_contract Toy.studio s) as (_ & _ & Hpick & _).
  destruct (Hpick Toy.names Hdir Hlist Hfiles Hcap)
    as (name & caption & Hname & Hcaption & Hopen).
  assert (name = lit "cat.jpg") as -> by congruence.
  assert (caption = lit "SUCH WOW") as -> by congruence.
  destruct (Hopen Toy.picture 75 Ho Hf) as (s' & Hrun & Hb & Ht & Hr).
  exists s'. split; [exact Hrun|]. split; [exact Hb|].
  split; [exact (eq_trans Ht Hk)|exact (eq_trans Hr Hg)].
Defined.

(** The names are matched in their very letters: [DOG.PNG] is no
    picture for the random selection, [cat.jpg] is. *)
Example is_image_file_case :
  is_image_file (lit "DOG.PNG") = false
  ∧ is_image_file (lit "cat.jpg") = true
  ∧ is_image_file (lit "notes.txt") = false.
Proof. vm_compute. by split_and!. Qed.

(** C7 as stated fails: a row that starts with a comma gives the empty
    string as a caption. *)
Lemma load_captions_counterexample :
  csv_rows Toy.studio (resource_path Toy.studio (lit "captions.csv"))
  = Ok [[lit "SUCH WOW"; lit "doge"]; []; [[]; lit "no caption"]]
  ∧ load_captions Toy.studio (Toy.boot 0)
    = (Ok [lit "SUCH WOW"; []], Toy.boot 0)
  ∧ ¬ Forall (λ caption : str, caption ≠ []) [lit "SUCH WOW"; []].
Proof.
  split_and!; [reflexivity|vm_compute; reflexivity|].
  intros Hall. apply Forall_cons in Hall as [_ Hall].
  by apply Forall_cons in Hall as [Hnil _].
Qed.

Lemma load_captions_first_columns_witness :
  os_path_exists Toy.studio (resource_path Toy.studio (lit "captions.csv"))
  = true
  ∧ csv_rows Toy.studio (resource_path Toy.studio (lit "captions.csv"))
    = Ok Toy.rows
  ∧ ¬ Forall (λ row : list str, row = []) Toy.rows
  ∧ load_captions Toy.studio (Toy.boot 0)
    = (Ok [lit "SUCH WOW"; []], Toy.boot 0).
Proof.
  assert (Hrows : ¬ Forall (λ row : list str, row = []) Toy.rows).
  { intros Hall. by apply Forall_cons in Hall as [Hnil _]. }
  split_and!; [reflexivity|reflexivity|exact Hrows|].
  apply (load_captions_first_columns Toy.studio (Toy.boot 0) Toy.rows);
    [reflexivity|reflexivity|exact Hrows].
Defined.


(** Blank captions, one of them made of an ideographic space and a
    space, post the promotional string; a caption with spaces around it is
    posted with them. *)
Example share_text_blank :
  share_text [] = default_share_text
  ∧ share_text [12288%N; 32%N] = default_share_text
  ∧ share_text (lit " so true ") = lit " so true ".
Proof. vm_compute. by split_and!. Qed.



Lemma random_gacha_sets_captions_witness :
  captions (self Toy.edited) ≠ []
  ∧ os_path_exists Toy.studio (image_folder (self Toy.edited)) = true
  ∧ os_listdir Toy.studio (image_folder (self Toy.edited)) = Ok Toy.names
  ∧ List.filter is_image_file Toy.names = [lit "cat.jpg"]
  ∧ Image_open Toy.studio
      (os_path_join Toy.studio (image_folder (self Toy.edited))
         (lit "cat.jpg"))
    = Ok Toy.picture
  ∧ canvas_font (self Toy.edited) = Ok (40 : @Font Toy.pillow)
  ∧ caption_text (self Toy.edited) = (lit "hello", lit "world")
  ∧ ∃ s' caption,
      random_gacha Toy.studio Toy.edited = (Ok (), s')
      ∧ caption ∈ captions (self Toy.edited)
      ∧ topTextEdit (ui (self s')) = caption
      ∧ bottomTextEdit (ui (self s')) = [].
Proof.
  assert (Hcap : captions (self Toy.edited) ≠ [])
    by (vm_compute; discriminate).
  assert (Hdir : os_path_exists Toy.studio (image_folder (self Toy.edited))
                 = true) by (vm_compute; reflexivity).
  assert (Hlist : os_listdir Toy.studio (image_folder (self Toy.edited))
                  = Ok Toy.names) by (vm_compute; reflexivity).
  assert (Hfiles : List.filter is_image_file Toy.names = [lit "cat.jpg"])
    by (vm_compute; reflexivity).
  assert (Hname : List.filter is_image_file Toy.names
                    !! (randbelow
                          (length (List.filter is_image_file Toy.names))
                          (rng Toy.edited)).1
                  = Some (lit "cat.jpg")) by (vm_compute; reflexivity).
  assert (Hopen : Image_open Toy.studio
                    (os_path_join Toy.studio (image_folder (self Toy.edited))
                       (lit "cat.jpg"))
                  = Ok Toy.picture) by (vm_compute; reflexivity).
  assert (Hfont : canvas_font (self Toy.edited) = Ok (40 : @Font Toy.pillow))
    by (vm_compute; reflexivity).
  assert (Htext : caption_text (self Toy.edited) = (lit "hello", lit "world"))
    by (vm_compute; reflexivity).
  split_and!;
    [exact Hcap|exact Hdir|exact Hlist|exact Hfiles|exact Hopen|exact Hfont
    |exact Htext|].
  destruct (random_gacha_sets_captions Toy.studio Toy.edited Toy.names
              (lit "cat.jpg") Toy.picture 40 Hcap Hdir Hlist Hname Hopen
              Hfont)
    as (s' & caption & Hrun & Hc & _ & Ht & Hb).
  assert (Hin : caption ∈ captions (self Toy.edited))
    by (eapply list_elem_of_lookup_2; exact Hc).
  assert (Hall : Forall
                   (λ c, Qt.fits (topTextEdit_maxLength (ui (self Toy.edited)))
                           c = true)
                   (captions (self Toy.edited))).
  { assert (Hcaps : captions (self Toy.edited) = [lit "SUCH WOW"; []])
      by (vm_compute; reflexivity).
    rewrite Hcaps. constructor; [vm_compute; reflexivity|].
    constructor; [vm_compute; reflexivity|]. constructor. }
  exists s', caption.
  split_and!; [exact Hrun|exact Hin| |exact Hb].
  exact (Ht (proj1 (Forall_forall _ _) Hall caption Hin)).
Defined.

(** A field of [maxLength] 5 keeps the first five units of a caption;
    a character over [U+FFFF] takes two units, and is kept whole only
    when both fit; a negative [maxLength] keeps all. *)
Example field_cuts_long_text :
  Qt.kept 5 (lit "SUCH WOW") = lit "SUCH "
  ∧ Qt.kept 3 [97; 128512; 98]%N = [97; 128512]%N
  ∧ Qt.kept 2 [97; 128512; 98]%N = [97; 55357]%N
  ∧ Qt.kept (-1) (lit "SUCH WOW") = lit "SUCH WOW"
  ∧ Qt.fits 32767 (lit "SUCH WOW") = true.
Proof. vm_compute. by split_and!. Qed.

(** * More of the program *)

Section More.
Context `{Pillow} `{Random}.
Implicit Types (s : Sys) (f : MyForm) (img base : Image).

(** ** What every slot keeps *)

Lemma erased_settled f f' : erase f' = erase f → settled f' = settled f.
Proof.
  intros E. change (settled (erase f') = settled (erase f)). by rewrite E.
Qed.

Lemma displayed_grown s s' :
  self s' = self s → store s `prefix_of` store s' →
  displayed s → displayed s'.
Proof.
  unfold displayed. intros -> Hp Hd r Hr.
  destruct (Hd r Hr) as (img & Hi & Hc). exists img.
  split; [by eapply lookup_grown|done].
Qed.

Lemma displayed_none s : image (self s) = None → displayed s.
Proof. unfold displayed. by intros ->. Qed.

Lemma displayed_redraw s : based s → fonted s → displayed (redraw s).
Proof.
  unfold based, fonted, redraw, base_image, pixels_of, displayed.
  destruct (image (self s)) as [r|] eqn:Hi;
    destruct (original_image (self s)) as [ro|] eqn:Ho; try done.
  - intros [base Hb] [?|[font Hf]]; [done|]. cbn. rewrite Hb.
    rewrite (render_of_ok _ base font Hf). cbn. intros r' [= <-].
    eexists. split; [apply lookup_last|done].
  - intros _ _. cbn. by rewrite Hi.
Qed.

Lemma displayed_set_top t s :
  based s → fonted s → displayed s → displayed (set_top t s).
Proof.
  intros Hb Hf Hd. unfold set_top. destruct (Py.eqb _ _); [done|].
  apply displayed_redraw; [by apply based_with_self|by apply fonted_with_self].
Qed.

Lemma displayed_set_bottom t s :
  based s → fonted s → displayed s → displayed (set_bottom t s).
Proof.
  intros Hb Hf Hd. unfold set_bottom. destruct (Py.eqb _ _); [done|].
  apply displayed_redraw; [by apply based_with_self|by apply fonted_with_self].
Qed.

Lemma displayed_adjust (g : MyForm → MyForm) s :
  based (with_self g s) → fonted (with_self g s) → displayed (adjust g s).
Proof.
  intros Hb Hf. unfold adjust.
  destruct (image (g (self s))) eqn:Hi; [by apply displayed_redraw|].
  by apply displayed_none.
Qed.

Lemma assigned_settled e f : settled (assigned e f) = settled f.
Proof. by destruct e. Qed.

Lemma rendered_from_settled s s' :
  rendered_from s s' → settled (self s') = settled (self s).
Proof. intros (E & _). by apply erased_settled. Qed.

(** One event that returns, from a machine of a session: the canvas is
    kept, objects are only added, and what [__init__] settled stays. *)
Lemma handle_step w e s s' :
  inv s → displayed s →
  handle w e s = (Ok (), s') →
  displayed s'
  ∧ store s `prefix_of` store s'
  ∧ settled (self s') = settled (self s).
Proof.
  intros Hinv Hd. assert (Hc := proj1 Hinv).
  assert (Hb := consistent_based s Hc). assert (Hf := consistent_fonted s Hc).
  assert (Hadj : ∀ g : MyForm → MyForm,
             image (g (self s)) = image (self s) →
             original_image (g (self s)) = original_image (self s) →
             settled (g (self s)) = settled (self s) →
             (modify g;; f ← get;
              if image f is Some _ then update_canvas else mret ()) s
             = (Ok (), s') →
             displayed s'
             ∧ store s `prefix_of` store s'
             ∧ settled (self s') = settled (self s)).
  { intros g Hi Ho Hset Hrun.
    assert (Hbg : based (with_self g s)) by by apply based_with_self.
    assert (Hfg := adjust_returned g s s' Hbg Hrun).
    rewrite adjust_run in Hrun by done. injection Hrun as <-.
    pose proof (adjust_rendered_from g s) as Hr.
    split_and!; [by apply displayed_adjust|by destruct Hr as (_ & ? & _)|].
    by rewrite (rendered_from_settled _ _ Hr). }
  destruct e; cbn [handle].
  - (* the load button *)
    rewrite load_image_run. intros [= <-].
    destruct file_name; [done|]. destruct (Image_open _ _) as [img|x].
    + destruct (canvas_font (self s)) as [font|x] eqn:Hfont.
      * pose proof (rendered_from_redraw (loaded img s)) as Hr.
        split_and!.
        -- apply displayed_redraw; [apply based_loaded|by eapply fonted_loaded].
        -- destruct Hr as (_ & P & _). etrans; [|exact P]. cbn.
           rewrite <- app_assoc. by apply prefix_app_r.
        -- by rewrite (rendered_from_settled _ _ Hr).
      * split_and!; [by apply displayed_none| |done]. cbn.
        rewrite <- !app_assoc. by apply prefix_app_r.
    + split_and!; [by apply displayed_none|done..].
  - (* the template button *)
    destruct (random_gacha_cases w s (proj2 Hinv))
      as [(x & _ & _ & ->)|(s'' & -> & Hcase)]; [done|].
    intros [= <-].
    destruct Hcase
      as [[t ->]|[[t ->]|[(x & names & ->)|[(x & y & -> & Hy)
          |(img & c & g & names & font & _ & Hfont & ->)]]]].
    + split_and!; [|done..]. by eapply displayed_grown.
    + split_and!; [|done..]. by eapply displayed_grown.
    + split_and!; [by apply displayed_none|done..].
    + destruct Hy as (Hs & _ & Hp & _).
      split_and!; [by apply displayed_none|done..].
    + set (s1 := with_rng g (loaded img (listed names s))).
      pose proof (rendered_from_picked c s1) as Hr.
      assert (Hb1 : based s1) by apply (based_loaded img (listed names s)).
      assert (Hf1 : fonted s1) by (right; by exists font).
      split_and!.
      * apply displayed_redraw.
        -- by apply set_bottom_based, set_top_based.
        -- by apply set_bottom_fonted, set_top_fonted.
      * destruct Hr as (_ & P & _). etrans; [|exact P]. cbn.
        rewrite <- app_assoc. by apply prefix_app_r.
      * by rewrite (rendered_from_settled _ _ Hr).
  - (* the save button *)
    intros (Hs & Hst & _)%save_image_frame; [|done].
    split_and!; [|by rewrite Hst|by rewrite Hs].
    eapply displayed_grown; [done| |done]. by rewrite Hst.
  - (* the clear button *)
    rewrite clear_canvas_run by done. intros [= <-].
    pose proof (set_top_rendered_from [] s) as H1.
    pose proof (set_bottom_rendered_from [] (set_top [] s)) as H2.
    split_and!; [by apply displayed_none| |].
    + destruct H1 as (_ & P1 & _), H2 as (_ & P2 & _). by etrans.
    + apply rendered_from_settled in H1, H2.
      change (settled (self (set_bottom [] (set_top [] s)))
              = settled (self s)).
      etrans; [exact H2|exact H1].
  - (* the share button *)
    destruct (share_to_x_frame w result s Hc) as (s'' & -> & Hs & Hst & _).
    intros [= <-]. split_and!; [|done|by rewrite Hs].
    by eapply displayed_grown.
  - (* the sliders *)
    by apply Hadj.
  - by apply Hadj.
  - by apply Hadj.
  - by apply Hadj.
  - (* the text fields *)
    rewrite topTextEdit_setText_run by done. intros [= <-].
    pose proof (set_top_rendered_from text s) as Hr.
    split_and!; [by apply displayed_set_top|by destruct Hr as (_ & ? & _)|].
    by rewrite (rendered_from_settled _ _ Hr).
  - rewrite bottomTextEdit_setText_run by done. intros [= <-].
    pose proof (set_bottom_rendered_from text s) as Hr.
    split_and!; [by apply displayed_set_bottom|by destruct Hr as (_ & ? & _)|].
    by rewrite (rendered_from_settled _ _ Hr).
  - (* the splash *)
    intros [= <-]. split_and!; [|done..]. by eapply displayed_grown.
Qed.

Lemma reachable_displayed s : reachable s → displayed s.
Proof.
  induction 1 as [w u g s Hi|w e s s' Hr IH He].
  - apply init_inv in Hi as (Hi & _). by apply displayed_none.
  - by destruct (handle_step w e s s' (reachable_inv s Hr) IH He).
Qed.

(** Whatever its end, an event only adds objects and keeps what
    [__init__] settled. *)
Lemma handle_frame w e s o s' :
  reachable s →
  handle w e s = (o, s') →
  store s `prefix_of` store s' ∧ settled (self s') = settled (self s).
Proof.
  intros Hr Hrun. destruct o as [[]|x].
  - by destruct (handle_step w e s s' (reachable_inv s Hr)
                   (reachable_displayed s Hr) Hrun) as (_ & ? & ?).
  - destruct (handle_raised w e s x s' (reachable_inv s Hr) Hrun)
      as (Hs & Hp & _).
    split; [done|]. rewrite Hs. apply assigned_settled.
Qed.

(** ** The session as a whole *)

(** X2.  All along a session the current image and the base image are
    there together or not at all, and the caption catalog is not empty. *)
Theorem images_come_together s :
  reachable s →
  (image (self s) = None ↔ original_image (self s) = None)
  ∧ captions (self s) ≠ [].
Proof.
  intros [Hc Hcap]%reachable_inv. split; [|done].
  revert Hc. unfold consistent.
  by destruct (image (self s)), (original_image (self s)).
Qed.

(** X3.  An event, whether it returns or raises, never changes the
    pixels of an image object that is there: drawing and scaling only ever
    work on a copy made for them. *)
Theorem objects_never_change w e s o s' :
  reachable s →
  handle w e s = (o, s') →
  ∀ (r : ref) img, store s !! r = Some img → store s' !! r = Some img.
Proof.
  intros Hr Hrun. destruct (handle_frame w e s o s' Hr Hrun) as [Hp _].
  intros r img. by apply lookup_grown.
Qed.

(** X4.  No event, whether it returns or raises, assigns what [__init__]
    settled: the image folder, the font file, the caption catalog and the X
    client are the same after every event. *)
Theorem session_constants w e s o s' :
  reachable s →
  handle w e s = (o, s') →
  image_folder (self s') = image_folder (self s)
  ∧ font_path (self s') = font_path (self s)
  ∧ captions (self s') = captions (self s)
  ∧ twitter_client (self s') = twitter_client (self s)
  ∧ twitter_api (self s') = twitter_api (self s).
Proof.
  intros Hr Hrun. destruct (handle_frame w e s o s' Hr Hrun) as [_ Hs].
  unfold settled in Hs. by injection Hs as -> -> -> -> ->.
Qed.

(** X5.  Whenever a session holds a current image, the canvas shows that
    very image scaled to the size of the canvas. *)
Theorem canvas_shows_current_image s (r : ref) :
  reachable s →
  image (self s) = Some r →
  ∃ img,
    store s !! r = Some img
    ∧ imageCanvas (ui (self s))
      = Some (Image_resize (imageCanvas_size (ui (self s))) img).
Proof. intros Hr. by apply reachable_displayed. Qed.

(** ** The position of the bottom text *)


(** ** Saving *)

(** X7.  Saving with an image.  The number [n] of the file is drawn
    from 1 to 1000.  When the folder [output] can be made and the file
    written, the save returns; and a save that returns has made the folder,
    written the current image, which is the render of the base image under
    the text and parameters of the moment, to [meme_<n>.png] there, and
    said so; the window and the images are left as they are. *)
Theorem save_image_writes_render w s base :
  reachable s →
  base_image s = Some base →
  let n := 1 + Z.of_nat (randbelow (Z.to_nat (1000 - 1 + 1)) (rng s)).1 in
  let path :=
    os_path_join w (lit "output") (lit "meme_" ++ Py.of_Z n ++ lit ".png") in
  1 ≤ n ≤ 1000
  ∧ ∃ picture,
      render_of (self s) base = Ok picture
      ∧ rendered_image s = Some picture
      ∧ (os_makedirs w (lit "output") = Ok () →
         Image_save w path picture = Ok () →
         ∃ s', save_image w s = (Ok (), s'))
      ∧ ∀ s',
          save_image w s = (Ok (), s') →
          effects s'
          = effects s
            ++ [MakeDirs (lit "output");
                ImageSaved path picture;
                MessageBox (lit "Saved") (lit "Image saved as " ++ path)]
          ∧ self s' = self s
          ∧ store s' = store s.
Proof.
  intros [Hc _]%reachable_inv Hb n path.
  assert (Hi := consistent_image s base Hc Hb).
  destruct (consistent_rendered s base Hc Hb Hi) as (picture & Hr & Hren & _).
  split.
  { pose proof (randbelow_lt (Z.to_nat (1000 - 1 + 1)) (rng s)) as Hlt.
    subst n. lia. }
  exists picture. split; [done|]. split; [done|].
  destruct (image (self s)) as [r|] eqn:Er; [|done].
  assert (Hs : store s !! r = Some picture).
  { revert Hr. unfold rendered_image, pixels_of. by rewrite Er. }
  pose proof (save_image_cases w s r picture Er Hs) as Hcases.
  cbv zeta in Hcases. fold n in Hcases.
  change (output_path w n) with path in Hcases.
  split.
  - intros Hm Hsave. rewrite Hcases, Hm, Hsave. by eexists.
  - intros s'. rewrite Hcases.
    destruct (os_makedirs w (lit "output")) as [[]|e]; [|done].
    destruct (Image_save w path picture) as [[]|e]; [|done].
    intros [= <-]. split; [|done]. cbn. by rewrite <- !app_assoc.
Qed.

(** X8.  After clearing there is nothing to save and nothing to post:
    both fields are empty, the canvas is empty, and save and share each
    only show their warning. *)
Theorem clear_then_no_content w1 w2 w3 result s :
  reachable s →
  ∃ s',
    run [(w1, ClearClicked); (w2, SaveClicked); (w3, ShareClicked result)] s
    = (Ok (), s')
    ∧ effects s'
      = effects s
        ++ [MessageBox (lit "Warning") (lit "No image to save!");
            MessageBox (lit "Warning") (lit "No image to post!")]
    ∧ image (self s') = None
    ∧ original_image (self s') = None
    ∧ imageCanvas (ui (self s')) = None
    ∧ caption_text (self s') = ([], []).
Proof.
  intros [Hc _]%reachable_inv.
  assert (Hb := consistent_based s Hc). assert (Hf := consistent_fonted s Hc).
  cbn [run handle].
  erewrite bind_ok by by apply clear_canvas_run.
  erewrite bind_ok by by apply save_image_none.
  erewrite bind_ok by reflexivity.
  eexists. split; [reflexivity|].
  pose proof (set_top_rendered_from [] s) as (E1 & _ & _ & F1).
  pose proof (set_bottom_rendered_from [] (set_top [] s)) as (E2 & _ & _ & F2).
  assert (F : effects (set_bottom [] (set_top [] s)) = effects s)
    by (etrans; [exact F2|exact F1]).
  split_and!; try done.
  - cbn. rewrite F. by rewrite <- app_assoc.
  - apply erased_caption_text in E1, E2.
    change (caption_text (self (set_bottom [] (set_top [] s))) = ([], [])).
    rewrite E2. unfold caption_text, bottom_kept, top_kept in *. cbn in *.
    rewrite kept_nil in *. by injection E1 as -> _.
Qed.

(** ** Sharing *)

Lemma share_to_x_declined w result s :
  image (self s) = None ∨ twitter_client (self s) = false
  ∨ twitter_api (self s) = false ∨ result = false →
  ∃ s',
    share_to_x w result s = (Ok (), s')
    ∧ self s' = self s ∧ store s' = store s ∧ rng s' = rng s
    ∧ (effects s' = effects s
       ∨ ∃ text, effects s' = effects s ++ [MessageBox (lit "Warning") text]).
Proof.
  intros Hno. unfold share_to_x. erewrite bind_ok by reflexivity.
  destruct (image (self s)) as [r|]; [|eexists; split_and!; eauto].
  destruct (twitter_client (self s)), (twitter_api (self s));
    cbn [negb orb]; try (eexists; split_and!; eauto; fail).
  destruct result; [|eexists; split_and!; eauto].
  by destruct Hno as [?|[?|[?|?]]].
Qed.

(** X9.  Nothing is posted without an image, without the X client, or
    without the answer Yes: the share then leaves the window, the images
    and the generator as they are, uploads nothing and at most shows a
    warning. *)
Theorem share_needs_consent w result s :
  image (self s) = None ∨ twitter_client (self s) = false
  ∨ twitter_api (self s) = false ∨ result = false →
  ∃ s',
    share_to_x w result s = (Ok (), s')
    ∧ self s' = self s ∧ store s' = store s ∧ rng s' = rng s
    ∧ (effects s' = effects s
       ∨ ∃ text, effects s' = effects s ++ [MessageBox (lit "Warning") text]).
Proof. apply share_to_x_declined. Qed.


(** X11.  A share, whatever its answer and its outcome, leaves the base
    image and the current image with the pixels they had: the scaling for
    the upload works on a copy. *)
Theorem share_keeps_images w result s :
  reachable s →
  ∃ s',
    share_to_x w result s = (Ok (), s')
    ∧ self s' = self s
    ∧ base_image s' = base_image s
    ∧ rendered_image s' = rendered_image s.
Proof.
  intros [Hc _]%reachable_inv.
  destruct (share_to_x_frame w result s Hc) as (s' & Hrun & Hf & Hp & _).
  exists s'. split; [done|]. split; [done|].
  unfold base_image, rendered_image, pixels_of. rewrite Hf.
  revert Hc. unfold consistent.
  destruct (image (self s)) as [r|], (original_image (self s)) as [ro|];
    try done.
  intros (_ & base & img & Hb & Hr & _). cbn. rewrite Hb, Hr.
  split; by eapply lookup_grown.
Qed.

(** ** Start-up *)

Lemma load_captions_escapes w s e :
  os_path_exists w (resource_path w (lit "captions.csv")) = true →
  csv_rows w (resource_path w (lit "captions.csv")) = Raise e →
  is_FileNotFoundError e = false → is_ValueError e = false →
  load_captions w s = (Raise e, s).
Proof.
  intros E Er H1 H2. unfold load_captions. rewrite E. cbn [negb].
  unfold try_except. erewrite bind_raise by by apply call_raise.
  by rewrite H1, H2.
Qed.

(** The part of [__init__] before the captions are loaded. *)
Lemma init_font w s0 :
  ∃ s2,
    (modify (with_image_folder (resource_path w (lit "images")));;
     modify (with_image None);;
     modify (with_original_image None);;
     modify (with_font_size 75);;
     modify (with_padding 20);;
     modify (with_top_left_margin 10);;
     modify (with_bottom_padding 20);;
     modify (with_font_path (Some (resource_path w (lit "impact.ttf"))));;
     (if negb (os_path_exists w (resource_path w (lit "impact.ttf")))
      then
        message_box (lit "Warning")
          (lit "Font file not found: " ++ resource_path w (lit "impact.ttf")
             ++ lit ". Using default font.");;
        modify (with_font_path None)
      else mret ())) s0 = (Ok (), s2)
    ∧ image (self s2) = None ∧ original_image (self s2) = None
    ∧ parameters (self s2) = default_parameters
    ∧ image_folder (self s2) = resource_path w (lit "images")
    ∧ font_path (self s2)
      = (if os_path_exists w (resource_path w (lit "impact.ttf"))
         then Some (resource_path w (lit "impact.ttf")) else None)
    ∧ store s2 = store s0.
Proof.
  do 8 (erewrite bind_ok by reflexivity).
  destruct (os_path_exists w _); by eexists.
Qed.

Lemma init_assoc w s0 :
  init w s0
  = ((modify (with_image_folder (resource_path w (lit "images")));;
      modify (with_image None);;
      modify (with_original_image None);;
      modify (with_font_size 75);;
      modify (with_padding 20);;
      modify (with_top_left_margin 10);;
      modify (with_bottom_padding 20);;
      modify (with_font_path (Some (resource_path w (lit "impact.ttf"))));;
      (if negb (os_path_exists w (resource_path w (lit "impact.ttf")))
       then
         message_box (lit "Warning")
           (lit "Font file not found: " ++ resource_path w (lit "impact.ttf")
              ++ lit ". Using default font.");;
         modify (with_font_path None)
       else mret ()));;
     captions ← load_captions w;
     modify (with_captions captions);;
     modify (with_twitter false false);;
     if tweepy_imported w
        && forallb (key_set w)
             [lit "X_API_KEY"; lit "X_API_SECRET"; lit "X_ACCESS_TOKEN";
              lit "X_ACCESS_TOKEN_SECRET"]
     then
       try_except
         (call (tweepy_Client w);;
          modify (with_twitter true false);;
          call (tweepy_API w);;
          modify (with_twitter true true);;
          modify (with_ui (ui_with_shareButton true)))
         is_Exception
         (λ e,
          message_box (lit "Warning")
            (lit "Failed to initialize X API: " ++ exn_str e);;
          modify (with_ui (ui_with_shareButton false)))
     else
       message_box (lit "Warning")
         (lit "X API keys not set or tweepy library not found. X posting disabled.");;
       modify (with_ui (ui_with_shareButton false))) s0.
Proof.
  unfold init. do 8 (erewrite bind_ok by reflexivity).
  symmetry. unfold mbind at 1, M_bind at 1.
  do 8 (erewrite bind_ok by reflexivity).
  unfold mbind at 1, M_bind at 1. reflexivity.
Qed.

Lemma init_returns w s0 s :
  init w s0 = (Ok (), s) →
  (image (self s) = None ∧ original_image (self s) = None
   ∧ parameters (self s) = default_parameters
   ∧ image_folder (self s) = resource_path w (lit "images")
   ∧ font_path (self s)
     = (if os_path_exists w (resource_path w (lit "impact.ttf"))
        then Some (resource_path w (lit "impact.ttf")) else None)
   ∧ store s = store s0)
  ∧ shareButton_enabled (ui (self s)) = twitter_api (self s)
  ∧ (twitter_api (self s) = true → twitter_client (self s) = true)
  ∧ (twitter_api (self s) = true
     ↔ tweepy_imported w = true
       ∧ forallb (key_set w)
           [lit "X_API_KEY"; lit "X_API_SECRET"; lit "X_ACCESS_TOKEN";
            lit "X_ACCESS_TOKEN_SECRET"] = true
       ∧ tweepy_Client w = Ok () ∧ tweepy_API w = Ok ()).
Proof.
  rewrite init_assoc.
  destruct (init_font w s0) as (s2 & E2 & Hi & Ho & Hp & Hd & Hfp & Hs).
  erewrite bind_ok by exact E2.
  destruct (load_captions w s2) as [[c|e] s3] eqn:Hl;
    [|by erewrite bind_raise by exact Hl].
  erewrite bind_ok by exact Hl.
  apply load_captions_returned in Hl as (_ & Hf & Hs').
  do 2 (erewrite bind_ok by reflexivity).
  destruct (tweepy_imported w); cbn [andb];
    [destruct (forallb _ _)|].
  - unfold try_except.
    destruct (tweepy_Client w) as [[]|x].
    + do 2 (erewrite bind_ok by reflexivity).
      destruct (tweepy_API w) as [[]|y].
      * do 2 (erewrite bind_ok by reflexivity).
        intros [= <-]; cbn; rewrite Hf, Hs'. by split_and!.
      * erewrite bind_raise by reflexivity.
        intros [= <-]; cbn; rewrite Hf, Hs'.
        split_and!; try done. split; [done|]. by intros (_ & _ & _ & ?).
    + erewrite bind_raise by reflexivity.
      intros [= <-]; cbn; rewrite Hf, Hs'.
      split_and!; try done. split; [done|]. by intros (_ & _ & ? & _).
  - intros [= <-]; cbn; rewrite Hf, Hs'.
    split_and!; try done. split; [done|]. by intros (_ & ? & _).
  - intros [= <-]; cbn; rewrite Hf, Hs'.
    split_and!; try done. split; [done|]. by intros (? & _).
Qed.

Lemma key_set_spec w name :
  key_set w name = true ↔ ∃ v, os_getenv w name = Some v ∧ v ≠ [].
Proof.
  unfold key_set. destruct (os_getenv w name) as [[|c v]|]; split;
    try done; try (by intros (? & [= <-] & ?)); try (by intros (? & ? & ?)).
  intros _. by eexists.
Qed.

(** X12.  Errors while the captions file is read.  A [ValueError], a
    decoding error among them, gives the fallback captions and a warning
    that names the error.  An error of any class other than
    [FileNotFoundError] and [ValueError] is not caught: it leaves
    [load_captions] without a message and makes [__init__] raise it. *)
Theorem load_captions_read_errors w e :
  os_path_exists w (resource_path w (lit "captions.csv")) = true →
  csv_rows w (resource_path w (lit "captions.csv")) = Raise e →
  (is_ValueError e = true →
   ∀ s, load_captions w s
        = (Ok default_captions,
           with_effect
             (MessageBox (lit "Warning")
                (lit "Failed to load captions: " ++ exn_str e
                   ++ lit ". Using default captions.")) s))
  ∧ (is_FileNotFoundError e = false → is_ValueError e = false →
     (∀ s, load_captions w s = (Raise e, s))
     ∧ ∀ s0, ∃ s1, init w s0 = (Raise e, s1)).
Proof.
  intros E Er. split.
  - intros Hv s. apply load_captions_caught; [done..|].
    by rewrite Hv, orb_true_r.
  - intros H1 H2. split; [intros s; by apply load_captions_escapes|].
    intros s0. rewrite init_assoc.
    destruct (init_font w s0) as (s2 & E2 & _).
    erewrite bind_ok by exact E2.
    erewrite bind_raise by by apply load_captions_escapes.
    by eexists.
Qed.

(** X13.  What [__init__] leaves when it returns: no image, the
    parameters at 75, 20, 10 and 20, a caption catalog that is not empty,
    and the font file if it is there, no font file otherwise. *)
Theorem init_defaults w s0 s :
  init w s0 = (Ok (), s) →
  image (self s) = None ∧ original_image (self s) = None
  ∧ parameters (self s)
    = {| fontSize := 75; topPadding := 20; leftMargin := 10;
         bottomPadding := 20 |}
  ∧ captions (self s) ≠ []
  ∧ image_folder (self s) = resource_path w (lit "images")
  ∧ font_path (self s)
    = (if os_path_exists w (resource_path w (lit "impact.ttf"))
       then Some (resource_path w (lit "impact.ttf")) else None).
Proof.
  intros Hinit. pose proof (init_inv w s0 s Hinit) as (_ & _ & Hc & _).
  apply init_returns in Hinit as ((? & ? & ? & ? & ? & _) & _).
  by split_and!.
Qed.

(** X14.  Posting is on after [__init__] exactly when tweepy was imported,
    each of the four keys is set to a string that is not empty, and the
    client and the API object were both built; the share button is enabled
    exactly then. *)
Theorem init_posting w s0 s :
  init w s0 = (Ok (), s) →
  shareButton_enabled (ui (self s)) = twitter_api (self s)
  ∧ (twitter_api (self s) = true → twitter_client (self s) = true)
  ∧ (twitter_api (self s) = true
     ↔ tweepy_imported w = true
       ∧ Forall (λ name, ∃ v, os_getenv w name = Some v ∧ v ≠ [])
           [lit "X_API_KEY"; lit "X_API_SECRET"; lit "X_ACCESS_TOKEN";
            lit "X_ACCESS_TOKEN_SECRET"]
       ∧ tweepy_Client w = Ok () ∧ tweepy_API w = Ok ()).
Proof.
  intros (_ & Hb & Hc & Hiff)%init_returns. split; [done|]. split; [done|].
  rewrite Hiff. cbn [forallb]. rewrite !andb_true_iff, !key_set_spec.
  rewrite !Forall_cons, Forall_nil. tauto.
Qed.

(** ** What is posted *)

(** An event other than a share that goes through posts nothing, whether
    it returns or raises. *)
Lemma handle_tweets w e s o s' :
  inv s →
  (∀ result, e = ShareClicked result →
     image (self s) = None ∨ twitter_client (self s) = false
     ∨ twitter_api (self s) = false ∨ result = false) →
  handle w e s = (o, s') →
  tweets (effects s') = tweets (effects s).
Proof.
  intros Hinv Hshare Hrun. destruct o as [[]|x];
    [|by destruct (handle_raised w e s x s' Hinv Hrun) as (_ & _ & ? & _)].
  revert Hrun. destruct Hinv as [Hc Hcap].
  assert (Hb := consistent_based s Hc). assert (Hf := consistent_fonted s Hc).
  assert (Hadj : ∀ g : MyForm → MyForm,
             image (g (self s)) = image (self s) →
             original_image (g (self s)) = original_image (self s) →
             (modify g;; f ← get;
              if image f is Some _ then update_canvas else mret ()) s
             = (Ok (), s') →
             tweets (effects s') = tweets (effects s)).
  { intros g Hi Ho Hrun.
    assert (Hbg : based (with_self g s)) by by apply based_with_self.
    assert (Hfg := adjust_returned g s s' Hbg Hrun).
    rewrite adjust_run in Hrun by done. injection Hrun as <-.
    by destruct (adjust_rendered_from g s) as (_ & _ & _ & ->). }
  destruct e; cbn [handle].
  - rewrite load_image_run. intros [= <-].
    destruct file_name; [done|]. destruct (Image_open _ _) as [img|x].
    + destruct (canvas_font (self s)) as [font|x].
      * by destruct (rendered_from_redraw (loaded img s)) as (_ & _ & _ & ->).
      * cbn. apply tweets_message.
    + cbn. apply tweets_message.
  - destruct (random_gacha_cases w s Hcap)
      as [(x & _ & _ & ->)|(s'' & -> & Hcase)]; [done|].
    intros [= <-].
    destruct Hcase
      as [[t ->]|[[t ->]|[(x & names & ->)|[(x & y & -> & Hy)
          |(img & c & g & names & font & _ & _ & ->)]]]];
      try (cbn; apply tweets_message).
    + destruct Hy as (_ & _ & _ & He).
      etrans; [apply (tweets_message (effects y))|by rewrite He].
    + by destruct (rendered_from_picked c
                     (with_rng g (loaded img (listed names s))))
        as (_ & _ & _ & ->).
  - by intros (_ & _ & ?)%save_image_frame.
  - rewrite clear_canvas_run by done. intros [= <-].
    pose proof (set_top_rendered_from [] s) as (_ & _ & _ & F1).
    pose proof (set_bottom_rendered_from [] (set_top [] s))
      as (_ & _ & _ & F2).
    change (tweets (effects (set_bottom [] (set_top [] s)))
            = tweets (effects s)).
    f_equal. etrans; [exact F2|exact F1].
  - destruct (share_to_x_declined w result s (Hshare result eq_refl))
      as (s'' & -> & _ & _ & _ & He).
    intros [= <-].
    destruct He as [->|[text ->]]; [done|apply tweets_message].
  - by apply Hadj.
  - by apply Hadj.
  - by apply Hadj.
  - by apply Hadj.
  - rewrite topTextEdit_setText_run by done. intros [= <-].
    by destruct (set_top_rendered_from text s) as (_ & _ & _ & ->).
  - rewrite bottomTextEdit_setText_run by done. intros [= <-].
    by destruct (set_bottom_rendered_from text s) as (_ & _ & _ & ->).
  - intros [= <-]. cbn. apply tweets_message.
Qed.

(** X15.  Without the X client nothing is ever posted: from a machine of
    a session whose client or API object is missing, no run of events,
    whether it returns or stops at an exception, adds a tweet. *)
Theorem no_client_no_tweets s steps o s' :
  reachable s →
  twitter_client (self s) = false ∨ twitter_api (self s) = false →
  run steps s = (o, s') →
  tweets (effects s') = tweets (effects s).
Proof.
  revert s. induction steps as [|[w e] steps IH]; intros s Hr Hno; cbn [run].
  - by intros [= <- <-].
  - destruct (handle w e s) as [[[]|x] s1] eqn:He.
    + erewrite bind_ok by exact He. intros Hrun.
      pose proof (handle_tweets w e s (Ok ()) s1 (reachable_inv s Hr)) as Ht.
      destruct (handle_frame w e s (Ok ()) s1 Hr He) as [_ Hs].
      etrans; [|apply Ht; [intros result _; tauto|exact He]].
      apply IH; [by eapply reachable_step| |exact Hrun].
      unfold settled in Hs. injection Hs as _ _ _ -> ->. done.
    + erewrite bind_raise by exact He. intros [= <- <-].
      eapply handle_tweets; [by apply reachable_inv| |exact He].
      intros result _. tauto.
Qed.

(** X16.  A tweet is only ever posted by the share button answered Yes,
    with an image and with both the client and the API object: any other
    event leaves the tweets as they are. *)
Theorem only_a_confirmed_share_posts w e s s' :
  reachable s →
  handle w e s = (Ok (), s') →
  tweets (effects s') ≠ tweets (effects s) →
  e = ShareClicked true
  ∧ image (self s) ≠ None
  ∧ twitter_client (self s) = true
  ∧ twitter_api (self s) = true.
Proof.
  intros Hinv%reachable_inv He Hne.
  assert (Hquiet :
    (∀ result, e = ShareClicked result →
       image (self s) = None ∨ twitter_client (self s) = false
       ∨ twitter_api (self s) = false ∨ result = false) → False).
  { intros Hq. by apply Hne, (handle_tweets w e s _ s' Hinv Hq He). }
  destruct e; try (exfalso; apply Hquiet; by intros).
  destruct result, (image (self s)) as [r|] eqn:Hi,
    (twitter_client (self s)) eqn:Hc, (twitter_api (self s)) eqn:Ha;
    try (exfalso; apply Hquiet; intros ? [= <-]; tauto).
  done.
Qed.

(** ** What is rendered *)

Lemma render_without_font top bottom base (p p' : RenderParameters) :
  topPadding p' = topPadding p → leftMargin p' = leftMargin p →
  bottomPadding p' = bottomPadding p →
  render None base top bottom p' = render None base top bottom p.
Proof.
  unfold render, render_with, render_top, render_bottom, render_font.
  by intros -> -> ->.
Qed.

(** X17.  Without the font file the font size does nothing: moving its
    slider leaves the pixels of the current image as they were (the default
    font is loaded without a size). *)
Theorem font_size_ignored_without_font w value s :
  reachable s →
  font_path (self s) = None →
  ∃ s', handle w (FontSizeMoved value) s = (Ok (), s')
        ∧ current_font_size (self s') = value
        ∧ rendered_image s' = rendered_image s.
Proof.
  intros [Hc _]%reachable_inv Hf. assert (Hb := consistent_based s Hc).
  assert (Hfont : canvas_font (with_font_size value (self s))
                  = Ok ImageFont_load_default).
  { unfold canvas_font. cbn. by rewrite Hf. }
  cbn [handle]. unfold update_font_size.
  rewrite adjust_run;
    [|by apply based_with_self|right; by eexists].
  eexists. split; [done|].
  pose proof (adjust_rendered_from (with_font_size value) s) as (E & _).
  split.
  { change (current_font_size (erase (self (adjust (with_font_size value) s)))
            = value). by rewrite E. }
  unfold adjust. cbn [with_font_size rebuild image].
  destruct (image (self s)) as [r|] eqn:Hi;
    [|unfold rendered_image; cbn; by rewrite Hi].
  revert Hc Hb. unfold consistent, based. rewrite Hi.
  destruct (original_image (self s)) as [ro|] eqn:Ho; [|done].
  intros (_ & base & img & Hbase & Hr & Hren) _.
  rewrite (redraw_of_base _ base img).
  - rewrite rendered_shown. unfold rendered_image, pixels_of.
    rewrite Hi. cbn. by rewrite Hr.
  - cbn. by rewrite Hi.
  - unfold base_image, pixels_of. cbn. rewrite Ho. done.
  - rewrite <- Hren. unfold render_of. cbn. rewrite Hf.
    by apply render_without_font.
Qed.

(** X18.  Each caption is drawn only when it is not empty.  With an empty
    bottom caption the current image is the base image with the top caption
    drawn at [(leftMargin, topPadding)] in the font of the window, which
    loads, and with both captions empty it has the very pixels of the base
    image, in an object of its own. *)
Theorem empty_captions_draw_nothing s base :
  reachable s →
  base_image s = Some base →
  bottomTextEdit (ui (self s)) = [] →
  ∃ font,
    canvas_font (self s) = Ok font
    ∧ rendered_image s
      = Some (match topTextEdit (ui (self s)) with
              | [] => base
              | _ :: _ =>
                  ImageDraw_text
                    (current_top_left_margin (self s),
                     current_padding (self s))
                    (topTextEdit (ui (self s))) font base
              end)
    ∧ image (self s) ≠ original_image (self s).
Proof.
  intros [Hc _]%reachable_inv Hb Hbot.
  destruct (consistent_rendered s base Hc Hb (consistent_image s base Hc Hb))
    as (img & -> & Hren & Hne).
  apply render_of_font in Hren as (font & Hfont & ->).
  exists font. split; [done|]. split; [|done]. f_equal.
  unfold render_with, render_bottom.
  rewrite Hbot. unfold render_top. by destruct (topTextEdit _).
Qed.

(** X19.  A slider moved before any picture is there only records its
    value: nothing is rendered, no object is made and no font is loaded,
    so that the move returns whatever the value.  The picture loaded next
    is rendered with that value, when the font loads at it. *)
Theorem slider_before_load w1 w2 value file_name img s :
  reachable s →
  image (self s) = None →
  file_name ≠ [] →
  Image_open w2 file_name = Ok img →
  ∃ s1,
    handle w1 (FontSizeMoved value) s = (Ok (), s1)
    ∧ current_font_size (self s1) = value
    ∧ store s1 = store s
    ∧ imageCanvas (ui (self s1)) = imageCanvas (ui (self s))
    ∧ ∀ font,
        canvas_font (with_font_size value (self s)) = Ok font →
        ∃ s2 picture,
          handle w2 (LoadClicked file_name) s1 = (Ok (), s2)
          ∧ base_image s2 = Some img
          ∧ rendered_image s2 = Some picture
          ∧ render (font_path (self s)) img (topTextEdit (ui (self s)))
              (bottomTextEdit (ui (self s)))
              {| fontSize := value;
                 topPadding := current_padding (self s);
                 leftMargin := current_top_left_margin (self s);
                 bottomPadding := current_bottom_padding (self s) |}
            = Ok picture.
Proof.
  intros [Hc _]%reachable_inv Hi Hne Ho.
  assert (Hb := consistent_based s Hc).
  set (s0 := with_self (with_font_size value) s).
  exists s0. split.
  { cbn [handle]. unfold update_font_size.
    rewrite adjust_run; [|by apply based_with_self|left; exact Hi].
    unfold adjust. cbn [with_font_size rebuild image]. by rewrite Hi. }
  split; [done|]. split; [done|]. split; [done|].
  intros font Hfont.
  set (s1 := loaded img s0).
  assert (Hb1 : based s1) by apply based_loaded.
  assert (Hf1 : fonted s1) by (right; by exists font).
  assert (Hbase : base_image (redraw s1) = Some img).
  { eapply rendered_from_base; [apply rendered_from_redraw|].
    apply base_image_loaded. }
  assert (Hc1 : consistent (redraw s1)) by by apply redraw_consistent.
  destruct (consistent_rendered _ img Hc1 Hbase
              (consistent_image _ img Hc1 Hbase))
    as (picture & Hpic & Hren & _).
  exists (redraw s1), picture.
  split.
  { cbn [handle]. rewrite load_image_run.
    destruct file_name; [done|]. rewrite Ho.
    change (canvas_font (self s0))
      with (canvas_font (with_font_size value (self s))).
    by rewrite Hfont. }
  split; [done|]. split; [done|].
  by rewrite (erased_render_of _ _ img (redraw_erase s1)) in Hren.
Qed.

(** X20.  A random selection whose picture opens, with a font that
    loads, shows that picture with what the top field keeps of the caption
    it drew, under the parameters as they stand, and with no bottom
    caption. *)
Theorem random_gacha_renders_caption w s names name img font :
  let folder := image_folder (self s) in
  let files := List.filter is_image_file names in
  let draw1 := randbelow (length files) (rng s) in
  let draw2 := randbelow (length (captions (self s))) draw1.2 in
  captions (self s) ≠ [] →
  os_path_exists w folder = true →
  os_listdir w folder = Ok names →
  files !! draw1.1 = Some name →
  Image_open w (os_path_join w folder name) = Ok img →
  canvas_font (self s) = Ok font →
  ∃ s' caption picture,
    random_gacha w s = (Ok (), s')
    ∧ captions (self s) !! draw2.1 = Some caption
    ∧ rendered_image s' = Some picture
    ∧ render (font_path (self s)) img
        (Qt.kept (topTextEdit_maxLength (ui (self s))) caption) []
        (parameters (self s))
      = Ok picture
    ∧ effects s' = effects s.
Proof.
  intros folder files draw1 draw2 Hcap E El Hname Ho Hfont.
  destruct (random_choice_run (captions (self s)) (listed names s))
    as (caption & Hc & _); [done|].
  rewrite (random_gacha_picked w s names name img caption font) by done.
  match goal with
  | |- context [set_top caption ?x] =>
      set (s1 := x); pose proof (rendered_from_picked caption s1) as Hr
  end.
  assert (Hb1 : based s1) by apply (based_loaded img (listed names s)).
  assert (Hf1 : fonted s1) by (right; by exists font).
  assert (Hc1 : consistent (redraw (set_bottom [] (set_top caption s1)))).
  { apply redraw_consistent.
    - by apply set_bottom_based, set_top_based.
    - by apply set_bottom_fonted, set_top_fonted. }
  assert (Hbase : base_image (redraw (set_bottom [] (set_top caption s1)))
                  = Some img).
  { eapply rendered_from_base; [exact Hr|].
    apply (base_image_loaded img (listed names s)). }
  destruct (consistent_rendered _ img Hc1 Hbase
              (consistent_image _ img Hc1 Hbase))
    as (picture & Hpic & Hren & _).
  eexists _, caption, picture. split; [done|]. split; [done|].
  split; [done|].
  destruct Hr as (Er & _ & _ & ->). split; [|done].
  rewrite (erased_render_of _ _ img Er) in Hren.
  revert Hren. unfold render_of, bottom_kept, top_kept. cbn.
  by rewrite kept_nil.
Qed.

(** X21.  Loading.  A cancelled dialog changes nothing.  A picture that
    opens, with a font that loads, becomes the base image as it was
    decoded; the current image is its render under the caption text and the
    parameters already there, which stay; no message is shown.  A picture
    that opens while the font does not load at the size of the moment ends
    as one that does not open: the render is inside the [try], the error
    of the font is shown in the message box titled Error, and no image is
    left. *)
Theorem load_image_outcomes w file_name s :
  (file_name = [] → load_image w file_name s = (Ok (), s))
  ∧ (∀ img font,
       file_name ≠ [] → Image_open w file_name = Ok img →
       canvas_font (self s) = Ok font →
       ∃ s' picture,
         load_image w file_name s = (Ok (), s')
         ∧ base_image s' = Some img
         ∧ rendered_image s' = Some picture
         ∧ render_of (self s) img = Ok picture
         ∧ image (self s') ≠ original_image (self s')
         ∧ caption_text (self s') = caption_text (self s)
         ∧ parameters (self s') = parameters (self s)
         ∧ effects s' = effects s)
  ∧ (∀ img e,
       file_name ≠ [] → Image_open w file_name = Ok img →
       canvas_font (self s) = Raise e →
       ∃ s',
         load_image w file_name s = (Ok (), s')
         ∧ effects s'
           = effects s
             ++ [MessageBox (lit "Error")
                   (lit "Failed to load image: " ++ exn_str e)]
         ∧ image (self s') = None
         ∧ original_image (self s') = None
         ∧ caption_text (self s') = caption_text (self s)
         ∧ parameters (self s') = parameters (self s)
         ∧ imageCanvas (ui (self s')) = imageCanvas (ui (self s))).
Proof.
  split; [by intros ->|]. split.
  - intros img font Hne Ho Hfont.
    rewrite load_image_run. destruct file_name; [done|]. rewrite Ho, Hfont.
    pose proof (rendered_from_redraw (loaded img s)) as Hr.
    assert (Hc1 : consistent (redraw (loaded img s))).
    { apply redraw_consistent; [apply based_loaded|by eapply fonted_loaded]. }
    assert (Hb1 : base_image (redraw (loaded img s)) = Some img).
    { eapply rendered_from_base; [exact Hr|]. apply base_image_loaded. }
    destruct (consistent_rendered _ img Hc1 Hb1
                (consistent_image _ img Hc1 Hb1))
      as (picture & Hpic & Hren & Hne').
    destruct Hr as (Er & _ & _ & Heff).
    rewrite (erased_render_of _ _ img Er) in Hren.
    exists (redraw (loaded img s)), picture.
    rewrite (erased_caption_text _ _ Er), (erased_parameters _ _ Er).
    by split_and!.
  - intros img e Hne Ho Hfont.
    rewrite load_image_run. destruct file_name; [done|]. rewrite Ho, Hfont.
    by eexists.
Qed.


(** ** Exceptions that leave a slot *)

(** X23.  A move of the font size while a picture is there, to a size at
    which the font file does not load: the value is recorded and the
    exception of the font leaves the slot.  Nothing is drawn: the current
    image, the base image and the pixmap on the canvas stay those of the
    last render, now out of step with the font size of the window, and no
    message is shown. *)
Theorem font_size_without_font_raises w value x s :
  reachable s →
  image (self s) ≠ None →
  canvas_font (with_font_size value (self s)) = Raise x →
  ∃ s',
    handle w (FontSizeMoved value) s = (Raise x, s')
    ∧ current_font_size (self s') = value
    ∧ image (self s') = image (self s)
    ∧ rendered_image s' = rendered_image s
    ∧ base_image s' = base_image s
    ∧ imageCanvas (ui (self s')) = imageCanvas (ui (self s))
    ∧ effects s' = effects s.
Proof.
  intros [Hc _]%reachable_inv Hi Hfont.
  assert (Hb := consistent_based s Hc).
  revert Hc Hb. unfold consistent, based.
  destruct (image (self s)) as [r|] eqn:Er; [|done].
  destruct (original_image (self s)) as [ro|] eqn:Ero; [|done].
  intros (_ & base & img & Hbase & Hr & _) _.
  cbn [handle]. unfold update_font_size.
  rewrite (adjust_raise (with_font_size value) s base x);
    [|cbn; by rewrite Er|unfold base_image, pixels_of; cbn; by rewrite Ero
     |done].
  eexists. split; [done|].
  unfold rendered_image, base_image, pixels_of. cbn. rewrite Er, Ero. cbn.
  rewrite Hr, Hbase. split_and!; try done; by apply lookup_app_l_Some.
Qed.

(** X24.  The folder is listed before the [try] of [random_gacha]: when
    the folder is there and listing it raises, the exception leaves the
    slot; no message is shown and nothing is changed. *)
Theorem random_gacha_listing_raises w x s :
  os_path_exists w (image_folder (self s)) = true →
  os_listdir w (image_folder (self s)) = Raise x →
  handle w TemplateClicked s = (Raise x, s).
Proof. intros E El. by apply random_gacha_unlisted. Qed.

(** X25.  [save_image] has no [try].  When the folder [output] cannot be
    made, the exception leaves the slot and nothing else happened.  When
    the folder is made and the file cannot be written, the exception leaves
    the slot after the number of the file was drawn.  Either way no file
    is written, no message box says Saved, and the window and the images
    are as they were. *)
Theorem save_image_failures w x s (r : ref) img :
  image (self s) = Some r →
  store s !! r = Some img →
  let draw := randbelow (Z.to_nat (1000 - 1 + 1)) (rng s) in
  (os_makedirs w (lit "output") = Raise x → save_image w s = (Raise x, s))
  ∧ (os_makedirs w (lit "output") = Ok () →
     Image_save w (output_path w (1 + Z.of_nat draw.1)) img = Raise x →
     ∃ s',
       save_image w s = (Raise x, s')
       ∧ effects s' = effects s ++ [MakeDirs (lit "output")]
       ∧ rng s' = draw.2
       ∧ self s' = self s
       ∧ store s' = store s).
Proof.
  intros Hi Hr draw. rewrite (save_image_cases w s r img Hi Hr). split.
  - by intros ->.
  - intros -> Hs. cbv zeta. fold draw. rewrite Hs. by eexists.
Qed.

End More.

(** * More examples on the small implementation *)

Lemma reachable_edited : reachable Toy.edited.
Proof. eapply reachable_after; [vm_compute; reflexivity|vm_compute; reflexivity]. Qed.

Lemma reachable_fresh : reachable Toy.fresh.
Proof. eapply reachable_after; [vm_compute; reflexivity|vm_compute; reflexivity]. Qed.

Lemma reachable_unplugged : reachable Toy.unplugged.
Proof. eapply reachable_after; [vm_compute; reflexivity|vm_compute; reflexivity]. Qed.

Lemma images_come_together_witness :
  reachable Toy.edited
  ∧ (image (self Toy.edited) = None ↔ original_image (self Toy.edited) = None)
  ∧ captions (self Toy.edited) ≠ [].
Proof.
  split; [exact reachable_edited|].
  exact (images_come_together Toy.edited reachable_edited).
Defined.

(** The objects are the same after a share, and after a move of the font
    size that raises. *)
Lemma objects_never_change_witness :
  reachable Toy.edited
  ∧ (handle Toy.studio (FontSizeMoved 0) Toy.edited).1
    = Raise (Exn ValueError (lit "font size must be greater than 0"))
  ∧ ∀ (r : ref) img,
      store Toy.edited !! r = Some img →
      store (handle Toy.studio (FontSizeMoved 0) Toy.edited).2 !! r
      = Some img.
Proof.
  assert (Hrun : handle Toy.studio (FontSizeMoved 0) Toy.edited
                 = (Raise (Exn ValueError
                             (lit "font size must be greater than 0")),
                    (handle Toy.studio (FontSizeMoved 0) Toy.edited).2))
    by (vm_compute; reflexivity).
  split; [exact reachable_edited|]. split; [exact (f_equal fst Hrun)|].
  exact (objects_never_change Toy.studio (FontSizeMoved 0) Toy.edited _ _
           reachable_edited Hrun).
Defined.

Lemma session_constants_witness :
  reachable Toy.edited
  ∧ ∃ s',
      handle Toy.bare_world ClearClicked Toy.edited = (Ok (), s')
      ∧ image_folder (self s') = image_folder (self Toy.edited)
      ∧ font_path (self s') = font_path (self Toy.edited)
      ∧ captions (self s') = captions (self Toy.edited)
      ∧ twitter_client (self s') = twitter_client (self Toy.edited)
      ∧ twitter_api (self s') = twitter_api (self Toy.edited).
Proof.
  assert (Hrun : handle Toy.bare_world ClearClicked Toy.edited
                 = (Ok (), (handle Toy.bare_world ClearClicked Toy.edited).2))
    by (vm_compute; reflexivity).
  split; [exact reachable_edited|].
  exists (handle Toy.bare_world ClearClicked Toy.edited).2.
  split; [exact Hrun|].
  exact (session_constants Toy.bare_world ClearClicked Toy.edited _ _
           reachable_edited Hrun).
Defined.

Lemma canvas_shows_current_image_witness :
  reachable Toy.edited
  ∧ image (self Toy.edited) = Some 5%nat
  ∧ ∃ img,
      store Toy.edited !! 5%nat = Some img
      ∧ imageCanvas (ui (self Toy.edited))
        = Some (Image_resize (imageCanvas_size (ui (self Toy.edited))) img).
Proof.
  assert (Hi : image (self Toy.edited) = Some 5%nat)
    by (vm_compute; reflexivity).
  split; [exact reachable_edited|]. split; [exact Hi|].
  exact (canvas_shows_current_image Toy.edited 5%nat reachable_edited Hi).
Defined.

(** A tall text in a low image: the text starts at 10 and runs over the
    bottom edge. *)
Example bottom_text_overflows :
  bottom_y 50 (0, 0, 100, 60) 20 = 10.
Proof. reflexivity. Qed.

(** A box that starts 14 below the origin, as a TrueType font gives it:
    with no padding the text is drawn at 243 and its box ends at 314, under
    the lower edge of an image 300 high. *)
Example bottom_text_below_the_edge :
  bottom_y 300 (0, 14, 434, 71) 0 = 243
  ∧ 300 < bottom_y 300 (0, 14, 434, 71) 0 + 71.
Proof. split; [reflexivity|]. vm_compute. reflexivity. Qed.

Lemma save_image_writes_render_witness :
  reachable Toy.edited
  ∧ base_image Toy.edited = Some Toy.picture
  ∧ ∃ s',
      save_image Toy.studio Toy.edited = (Ok (), s')
      ∧ effects s'
        = effects Toy.edited
          ++ [MakeDirs (lit "output");
              ImageSaved (lit "output/meme_1.png") Toy.meme;
              MessageBox (lit "Saved")
                (lit "Image saved as output/meme_1.png")]
      ∧ self s' = self Toy.edited
      ∧ store s' = store Toy.edited.
Proof.
  assert (Hb : base_image Toy.edited = Some Toy.picture)
    by (vm_compute; reflexivity).
  assert (Hp : rendered_image Toy.edited = Some Toy.meme)
    by (vm_compute; reflexivity).
  assert (Hpath : os_path_join Toy.studio (lit "output")
                    (lit "meme_"
                       ++ Py.of_Z
                            (1 + Z.of_nat
                                   (randbelow (Z.to_nat (1000 - 1 + 1))
                                      (rng Toy.edited)).1)
                       ++ lit ".png")
                  = lit "output/meme_1.png") by (vm_compute; reflexivity).
  assert (Hmsg : lit "Image saved as " ++ lit "output/meme_1.png"
                 = lit "Image saved as output/meme_1.png")
    by (vm_compute; reflexivity).
  split; [exact reachable_edited|]. split; [exact Hb|].
  destruct (save_image_writes_render Toy.studio Toy.edited Toy.picture
              reachable_edited Hb)
    as (_ & picture & _ & Hr & Hreturns & Hdone).
  assert (picture = Toy.meme) as -> by congruence.
  destruct (Hreturns eq_refl eq_refl) as (s' & Hrun).
  destruct (Hdone s' Hrun) as (He & Hf & Hs).
  exists s'. split; [exact Hrun|]. split; [|split; [exact Hf|exact Hs]].
  rewrite He, Hpath, Hmsg. reflexivity.
Defined.

Lemma clear_then_no_content_witness :
  reachable Toy.edited
  ∧ ∃ s',
      run [(Toy.studio, ClearClicked); (Toy.studio, SaveClicked);
           (Toy.studio, ShareClicked true)] Toy.edited = (Ok (), s')
      ∧ effects s'
        = effects Toy.edited
          ++ [MessageBox (lit "Warning") (lit "No image to save!");
              MessageBox (lit "Warning") (lit "No image to post!")]
      ∧ image (self s') = None
      ∧ original_image (self s') = None
      ∧ imageCanvas (ui (self s')) = None
      ∧ caption_text (self s') = ([], []).
Proof.
  split; [exact reachable_edited|].
  exact (clear_then_no_content Toy.studio Toy.studio Toy.studio true
           Toy.edited reachable_edited).
Defined.

Lemma share_needs_consent_witness :
  twitter_api (self Toy.unplugged) = false
  ∧ ∃ s',
      share_to_x Toy.studio true Toy.unplugged = (Ok (), s')
      ∧ self s' = self Toy.unplugged ∧ store s' = store Toy.unplugged
      ∧ rng s' = rng Toy.unplugged
      ∧ (effects s' = effects Toy.unplugged
         ∨ ∃ text,
             effects s'
             = effects Toy.unplugged ++ [MessageBox (lit "Warning") text]).
Proof.
  assert (Ha : twitter_api (self Toy.unplugged) = false)
    by (vm_compute; reflexivity).
  split; [exact Ha|].
  exact (share_needs_consent Toy.studio true Toy.unplugged
           (or_intror (or_intror (or_introl Ha)))).
Defined.


Lemma share_keeps_images_witness :
  reachable Toy.edited
  ∧ ∃ s',
      share_to_x Toy.offline true Toy.edited = (Ok (), s')
      ∧ self s' = self Toy.edited
      ∧ base_image s' = base_image Toy.edited
      ∧ rendered_image s' = rendered_image Toy.edited.
Proof.
  split; [exact reachable_edited|].
  exact (share_keeps_images Toy.offline true Toy.edited reachable_edited).
Defined.

Lemma load_captions_read_errors_witness :
  os_path_exists Toy.locked (resource_path Toy.locked (lit "captions.csv"))
  = true
  ∧ csv_rows Toy.locked (resource_path Toy.locked (lit "captions.csv"))
    = Raise (Exn OSError (lit "Permission denied"))
  ∧ load_captions Toy.locked (Toy.boot 0)
    = (Raise (Exn OSError (lit "Permission denied")), Toy.boot 0)
  ∧ ∃ s1, init Toy.locked (Toy.boot 0)
          = (Raise (Exn OSError (lit "Permission denied")), s1).
Proof.
  assert (He : os_path_exists Toy.locked
                 (resource_path Toy.locked (lit "captions.csv")) = true)
    by reflexivity.
  assert (Hr : csv_rows Toy.locked
                 (resource_path Toy.locked (lit "captions.csv"))
               = Raise (Exn OSError (lit "Permission denied")))
    by reflexivity.
  split; [exact He|]. split; [exact Hr|].
  destruct (@load_captions_read_errors Toy.pillow Toy.random Toy.locked _
              He Hr) as (_ & Hescape).
  destruct (Hescape eq_refl eq_refl) as (Hload & Hinit).
  split; [exact (Hload (Toy.boot 0))|exact (Hinit (Toy.boot 0))].
Defined.

(** A captions file that is not text in UTF-8 gives the fallback. *)
Example load_captions_undecodable :
  (load_captions
     (Toy.world (Raise (Exn UnicodeDecodeError (lit "invalid start byte"))))
     (Toy.boot 0)).1
  = Ok default_captions.
Proof. vm_compute. reflexivity. Qed.

Lemma init_defaults_witness :
  init Toy.bare_world (Toy.boot 0)
  = (Ok (), (init Toy.bare_world (Toy.boot 0)).2)
  ∧ font_path (self (init Toy.bare_world (Toy.boot 0)).2) = None
  ∧ parameters (self (init Toy.bare_world (Toy.boot 0)).2)
    = default_parameters
  ∧ captions (self (init Toy.bare_world (Toy.boot 0)).2) ≠ [].
Proof.
  assert (Hi : init Toy.bare_world (Toy.boot 0)
               = (Ok (), (init Toy.bare_world (Toy.boot 0)).2))
    by (vm_compute; reflexivity).
  split; [exact Hi|].
  destruct (init_defaults Toy.bare_world (Toy.boot 0) _ Hi)
    as (_ & _ & Hp & Hc & _ & Hf).
  split_and!; [exact Hf|exact Hp|exact Hc].
Defined.

Lemma init_posting_witness :
  init Toy.studio (Toy.boot 0) = (Ok (), Toy.fresh)
  ∧ shareButton_enabled (ui (self Toy.fresh)) = twitter_api (self Toy.fresh)
  ∧ (twitter_api (self Toy.fresh) = true
     → twitter_client (self Toy.fresh) = true).
Proof.
  assert (Hi : init Toy.studio (Toy.boot 0) = (Ok (), Toy.fresh))
    by (vm_compute; reflexivity).
  split; [exact Hi|].
  destruct (init_posting Toy.studio (Toy.boot 0) Toy.fresh Hi)
    as (Hb & Hc & _).
  split; [exact Hb|exact Hc].
Defined.

(** With one key missing posting is off. *)
Example init_without_a_key :
  twitter_api (self (init Toy.bare_world (Toy.boot 0)).2) = false
  ∧ shareButton_enabled (ui (self (init Toy.bare_world (Toy.boot 0)).2))
    = false.
Proof. vm_compute. by split. Qed.

Lemma no_client_no_tweets_witness :
  reachable Toy.unplugged
  ∧ twitter_api (self Toy.unplugged) = false
  ∧ ∃ s',
      run [(Toy.studio, ShareClicked true); (Toy.studio, TemplateClicked);
           (Toy.studio, ShareClicked true); (Toy.studio, SaveClicked)]
        Toy.unplugged = (Ok (), s')
      ∧ tweets (effects s') = tweets (effects Toy.unplugged).
Proof.
  assert (Ha : twitter_api (self Toy.unplugged) = false)
    by (vm_compute; reflexivity).
  set (steps := [(Toy.studio, ShareClicked true); (Toy.studio, TemplateClicked);
                 (Toy.studio, ShareClicked true); (Toy.studio, SaveClicked)]).
  assert (Hrun : run steps Toy.unplugged
                 = (Ok (), (run steps Toy.unplugged).2))
    by (vm_compute; reflexivity).
  split; [exact reachable_unplugged|]. split; [exact Ha|].
  exists (run steps Toy.unplugged).2. split; [exact Hrun|].
  exact (no_client_no_tweets Toy.unplugged steps _ _ reachable_unplugged
           (or_intror Ha) Hrun).
Defined.

Lemma only_a_confirmed_share_posts_witness :
  reachable Toy.edited
  ∧ handle Toy.studio (ShareClicked true) Toy.edited
    = (Ok (), (handle Toy.studio (ShareClicked true) Toy.edited).2)
  ∧ tweets (effects (handle Toy.studio (ShareClicked true) Toy.edited).2)
    ≠ tweets (effects Toy.edited)
  ∧ image (self Toy.edited) ≠ None
  ∧ twitter_client (self Toy.edited) = true
  ∧ twitter_api (self Toy.edited) = true.
Proof.
  assert (Hrun : handle Toy.studio (ShareClicked true) Toy.edited
                 = (Ok (), (handle Toy.studio (ShareClicked true) Toy.edited).2))
    by (vm_compute; reflexivity).
  assert (Hne : tweets (effects (handle Toy.studio (ShareClicked true)
                                   Toy.edited).2)
                ≠ tweets (effects Toy.edited))
    by (vm_compute; discriminate).
  split; [exact reachable_edited|]. split; [exact Hrun|]. split; [exact Hne|].
  destruct (only_a_confirmed_share_posts Toy.studio (ShareClicked true)
              Toy.edited _ reachable_edited Hrun Hne) as (_ & Hi & Hc & Ha).
  split_and!; [exact Hi|exact Hc|exact Ha].
Defined.

Lemma font_size_ignored_without_font_witness :
  reachable Toy.unplugged
  ∧ font_path (self Toy.unplugged) = None
  ∧ rendered_image Toy.unplugged
    = Some {| Toy.size := (400, 300);
              Toy.drawn := [((10, 20), lit "hello", 10)] |}
  ∧ ∃ s',
      handle Toy.studio (FontSizeMoved 200) Toy.unplugged = (Ok (), s')
      ∧ current_font_size (self s') = 200
      ∧ rendered_image s' = rendered_image Toy.unplugged.
Proof.
  assert (Hf : font_path (self Toy.unplugged) = None)
    by (vm_compute; reflexivity).
  split; [exact reachable_unplugged|]. split; [exact Hf|].
  split; [vm_compute; reflexivity|].
  exact (font_size_ignored_without_font Toy.studio 200 Toy.unplugged
           reachable_unplugged Hf).
Defined.

Lemma empty_captions_draw_nothing_witness :
  reachable Toy.opened
  ∧ base_image Toy.opened = Some Toy.picture
  ∧ bottomTextEdit (ui (self Toy.opened)) = []
  ∧ topTextEdit (ui (self Toy.opened)) = []
  ∧ rendered_image Toy.opened = Some Toy.picture
  ∧ image (self Toy.opened) ≠ original_image (self Toy.opened).
Proof.
  assert (Hr : reachable Toy.opened).
  { eapply reachable_after; [vm_compute; reflexivity|vm_compute; reflexivity]. }
  assert (Hb : base_image Toy.opened = Some Toy.picture)
    by (vm_compute; reflexivity).
  assert (Hbot : bottomTextEdit (ui (self Toy.opened)) = [])
    by (vm_compute; reflexivity).
  assert (Htop : topTextEdit (ui (self Toy.opened)) = [])
    by (vm_compute; reflexivity).
  split_and!; [exact Hr|exact Hb|exact Hbot|exact Htop| |].
  - destruct (empty_captions_draw_nothing Toy.opened Toy.picture Hr Hb Hbot)
      as (font & _ & Himg & _).
    rewrite Htop in Himg. exact Himg.
  - destruct (empty_captions_draw_nothing Toy.opened Toy.picture Hr Hb Hbot)
      as (font & _ & _ & Hne).
    exact Hne.
Defined.

Lemma slider_before_load_witness :
  reachable Toy.fresh
  ∧ image (self Toy.fresh) = None
  ∧ Image_open Toy.studio Toy.cat = Ok Toy.picture
  ∧ canvas_font (with_font_size 40 (self Toy.fresh))
    = Ok (40 : @Font Toy.pillow)
  ∧ ∃ s1 s2,
      handle Toy.studio (FontSizeMoved 40) Toy.fresh = (Ok (), s1)
      ∧ store s1 = store Toy.fresh
      ∧ handle Toy.studio (LoadClicked Toy.cat) s1 = (Ok (), s2)
      ∧ base_image s2 = Some Toy.picture.
Proof.
  assert (Hi : image (self Toy.fresh) = None) by (vm_compute; reflexivity).
  assert (Ho : Image_open Toy.studio Toy.cat = Ok Toy.picture)
    by (vm_compute; reflexivity).
  assert (Hne : Toy.cat ≠ []) by (vm_compute; discriminate).
  assert (Hf : canvas_font (with_font_size 40 (self Toy.fresh))
               = Ok (40 : @Font Toy.pillow)) by (vm_compute; reflexivity).
  split_and!; [exact reachable_fresh|exact Hi|exact Ho|exact Hf|].
  destruct (slider_before_load Toy.studio Toy.studio 40 Toy.cat Toy.picture
              Toy.fresh reachable_fresh Hi Hne Ho)
    as (s1 & H1 & _ & H2 & _ & Hload).
  destruct (Hload 40 Hf) as (s2 & picture & H3 & H4 & _).
  exists s1, s2. split_and!; [exact H1|exact H2|exact H3|exact H4].
Defined.

Lemma random_gacha_renders_caption_witness :
  captions (self Toy.edited) ≠ []
  ∧ os_path_exists Toy.studio (image_folder (self Toy.edited)) = true
  ∧ os_listdir Toy.studio (image_folder (self Toy.edited)) = Ok Toy.names
  ∧ Image_open Toy.studio
      (os_path_join Toy.studio (image_folder (self Toy.edited))
         (lit "cat.jpg"))
    = Ok Toy.picture
  ∧ canvas_font (self Toy.edited) = Ok (40 : @Font Toy.pillow)
  ∧ ∃ s' caption picture,
      random_gacha Toy.studio Toy.edited = (Ok (), s')
      ∧ rendered_image s' = Some picture
      ∧ render (font_path (self Toy.edited)) Toy.picture
          (Qt.kept (topTextEdit_maxLength (ui (self Toy.edited))) caption) []
          (parameters (self Toy.edited))
        = Ok picture
      ∧ effects s' = effects Toy.edited.
Proof.
  assert (Hcap : captions (self Toy.edited) ≠ [])
    by (vm_compute; discriminate).
  assert (Hdir : os_path_exists Toy.studio (image_folder (self Toy.edited))
                 = true) by (vm_compute; reflexivity).
  assert (Hlist : os_listdir Toy.studio (image_folder (self Toy.edited))
                  = Ok Toy.names) by (vm_compute; reflexivity).
  assert (Hname : List.filter is_image_file Toy.names
                    !! (randbelow
                          (length (List.filter is_image_file Toy.names))
                          (rng Toy.edited)).1
                  = Some (lit "cat.jpg")) by (vm_compute; reflexivity).
  assert (Hopen : Image_open Toy.studio
                    (os_path_join Toy.studio (image_folder (self Toy.edited))
                       (lit "cat.jpg"))
                  = Ok Toy.picture) by (vm_compute; reflexivity).
  assert (Hfont : canvas_font (self Toy.edited) = Ok (40 : @Font Toy.pillow))
    by (vm_compute; reflexivity).
  split_and!; [exact Hcap|exact Hdir|exact Hlist|exact Hopen|exact Hfont|].
  destruct (random_gacha_renders_caption Toy.studio Toy.edited Toy.names
              (lit "cat.jpg") Toy.picture 40 Hcap Hdir Hlist Hname Hopen
              Hfont)
    as (s' & caption & picture & Hrun & _ & Himg & Hren & He).
  exists s', caption, picture.
  split_and!; [exact Hrun|exact Himg|exact Hren|exact He].
Defined.

(** Loading the cat over the edited machine keeps the text and the
    parameters. *)
Example load_image_keeps_the_text :
  caption_text (self (handle Toy.studio (LoadClicked Toy.cat) Toy.edited).2)
  = (lit "hello", lit "world")
  ∧ current_font_size
      (self (handle Toy.studio (LoadClicked Toy.cat) Toy.edited).2) = 40.
Proof. vm_compute. by split. Qed.



Lemma load_image_outcomes_witness :
  load_image Toy.studio [] Toy.edited = (Ok (), Toy.edited)
  ∧ (∃ s',
       load_image Toy.studio Toy.cat Toy.edited = (Ok (), s')
       ∧ base_image s' = Some Toy.picture
       ∧ caption_text (self s') = caption_text (self Toy.edited)
       ∧ parameters (self s') = parameters (self Toy.edited))
  ∧ ∃ s',
      load_image Toy.studio Toy.cat Toy.tiny = (Ok (), s')
      ∧ effects s'
        = effects Toy.tiny
          ++ [MessageBox (lit "Error")
                (lit "Failed to load image: font size must be greater than 0")]
      ∧ image (self s') = None
      ∧ original_image (self s') = None.
Proof.
  assert (Hne : Toy.cat ≠ []) by (vm_compute; discriminate).
  assert (Ho : Image_open Toy.studio Toy.cat = Ok Toy.picture)
    by (vm_compute; reflexivity).
  split_and!.
  - exact (proj1 (load_image_outcomes Toy.studio [] Toy.edited) eq_refl).
  - assert (Hf : canvas_font (self Toy.edited) = Ok (40 : @Font Toy.pillow))
      by (vm_compute; reflexivity).
    destruct (proj1 (proj2 (load_image_outcomes Toy.studio Toy.cat Toy.edited))
                Toy.picture 40 Hne Ho Hf)
      as (s' & picture & Hrun & Hb & _ & _ & _ & Ht & Hp & _).
    exists s'. split_and!; [exact Hrun|exact Hb|exact Ht|exact Hp].
  - assert (Hf : canvas_font (self Toy.tiny)
                 = Raise (Exn ValueError
                            (lit "font size must be greater than 0")))
      by (vm_compute; reflexivity).
    destruct (proj2 (proj2 (load_image_outcomes Toy.studio Toy.cat Toy.tiny))
                Toy.picture _ Hne Ho Hf)
      as (s' & Hrun & He & Hi & Hor & _).
    exists s'. split_and!; [exact Hrun| |exact Hi|exact Hor].
    etrans; [exact He|]. vm_compute. reflexivity.
Defined.

Lemma font_size_without_font_raises_witness :
  reachable Toy.edited
  ∧ image (self Toy.edited) ≠ None
  ∧ canvas_font (with_font_size 0 (self Toy.edited))
    = Raise (Exn ValueError (lit "font size must be greater than 0"))
  ∧ ∃ s',
      handle Toy.studio (FontSizeMoved 0) Toy.edited
      = (Raise (Exn ValueError (lit "font size must be greater than 0")), s')
      ∧ current_font_size (self s') = 0
      ∧ rendered_image s' = rendered_image Toy.edited.
Proof.
  assert (Hi : image (self Toy.edited) ≠ None) by (vm_compute; discriminate).
  assert (Hf : canvas_font (with_font_size 0 (self Toy.edited))
               = Raise (Exn ValueError
                          (lit "font size must be greater than 0")))
    by (vm_compute; reflexivity).
  split_and!; [exact reachable_edited|exact Hi|exact Hf|].
  destruct (font_size_without_font_raises Toy.studio 0 _ Toy.edited
              reachable_edited Hi Hf) as (s' & Hrun & Hv & _ & Hr & _).
  exists s'. split_and!; [exact Hrun|exact Hv|exact Hr].
Defined.

Lemma random_gacha_listing_raises_witness :
  os_path_exists Toy.sealed (image_folder (self Toy.edited)) = true
  ∧ os_listdir Toy.sealed (image_folder (self Toy.edited))
    = Raise (Exn OSError (lit "Permission denied"))
  ∧ handle Toy.sealed TemplateClicked Toy.edited
    = (Raise (Exn OSError (lit "Permission denied")), Toy.edited).
Proof.
  assert (He : os_path_exists Toy.sealed (image_folder (self Toy.edited))
               = true) by (vm_compute; reflexivity).
  assert (Hl : os_listdir Toy.sealed (image_folder (self Toy.edited))
               = Raise (Exn OSError (lit "Permission denied")))
    by (vm_compute; reflexivity).
  split_and!; [exact He|exact Hl|].
  exact (random_gacha_listing_raises Toy.sealed _ Toy.edited He Hl).
Defined.

Lemma save_image_failures_witness :
  image (self Toy.edited) = Some 5%nat
  ∧ store Toy.edited !! 5%nat
    = Some {| Toy.size := (400, 300);
              Toy.drawn := [((10, 20), lit "hello", 40);
                            ((10, 248), lit "world", 40)] |}
  ∧ ∃ s',
      save_image Toy.full Toy.edited
      = (Raise (Exn OSError (lit "No space left on device")), s')
      ∧ effects s' = effects Toy.edited ++ [MakeDirs (lit "output")]
      ∧ self s' = self Toy.edited
      ∧ store s' = store Toy.edited.
Proof.
  assert (Hi : image (self Toy.edited) = Some 5%nat)
    by (vm_compute; reflexivity).
  assert (Hr : store Toy.edited !! 5%nat
               = Some {| Toy.size := (400, 300);
                         Toy.drawn := [((10, 20), lit "hello", 40);
                                       ((10, 248), lit "world", 40)] |})
    by (vm_compute; reflexivity).
  split_and!; [exact Hi|exact Hr|].
  destruct (proj2 (save_image_failures Toy.full
                     (Exn OSError (lit "No space left on device"))
                     Toy.edited 5%nat _ Hi Hr) eq_refl eq_refl)
    as (s' & Hrun & He & _ & Hs & Hst).
  exists s'. split_and!; [exact Hrun|exact He|exact Hs|exact Hst].
Defined.
